(** * policy-admission: the dispatch engine, the authorizer factory and the
    command-line authorizer parser, embedded from the Go sources

    - [cmd/policy-admission/main.go]  (package [main]: the [Action] of the
      application, [configureAuthorizer])
    - [pkg/server] ([admit], [handleAdmissionReview], [getResourceForReview],
      [Start], [New])
    - [pkg/authorize/authorize.go]    ([New], [newAuthorizer])

    Go packages become modules of the same name.  Stateful code is written
    with explicit state passing: the Prometheus registry, the logger and the
    state behind the Kubernetes client and the shared resource cache are the
    fields of [server.State].  Every call of an authorizer's [Admit] is
    additionally recorded, in order, in a list of [server.Invocation]s: this
    is the call-count probe the properties about "invoked" are stated on. *)

From Stdlib Require Import Ascii String Sorted.
From stdpp Require Import gmap strings list fin_maps.

Local Open Scope string_scope.
Local Open Scope list_scope.

(** ** Go values shared by all packages *)

(** A Go [error] value is represented by its message. *)
Definition error := string.

(** A Go result pair [(v, err)] of which exactly one side is meaningful. *)
Inductive result (A : Type) : Type :=
| Ok (v : A)
| Err (e : error).
Arguments Ok {A} v.
Arguments Err {A} e.

(** The types the sources take from their libraries and never inspect. *)
Class Types := {
  (** what stands behind [c.client] and [c.resourceCache]: the cluster as
      seen through the Kubernetes client, and the content of the shared cache *)
  World : Type;
  (** the kind-specific part of a decoded object (pod spec, ingress rules, ...) *)
  ObjectSpec : Type;
  (** the dynamic values an [interface{}] holds in [field.Error.BadValue] *)
  Value : Type;
  (** [*http.Server] as built by [utils.NewHTTPServer] *)
  HTTPServer : Type;
}.

(** ** Package [strings] *)
Module strings.

(** [strings.Split(s, sep)] for a separator of one byte, the only use in the
    sources ([strings.Split(cfg, "=")]): the pieces of [s] between the
    occurrences of [sep]; one more piece than there are occurrences. *)
Fixpoint Split (s : string) (sep : ascii) : list string :=
  match s with
  | EmptyString => [""]
  | String ch rest =>
      if Ascii.eqb ch sep then "" :: Split rest sep
      else match Split rest sep with
           | [] => [String ch ""]
           | piece :: pieces => String ch piece :: pieces
           end
  end.

(** [strings.Join(elems, sep)]. *)
Definition Join (elems : list string) (sep : string) : string :=
  String.concat sep elems.

(** Number of occurrences of a byte in a string ([strings.Count] for a
    one-byte pattern); used to state properties of [Split]. *)
Fixpoint Count (s : string) (ch : ascii) : nat :=
  match s with
  | EmptyString => 0
  | String c rest => (if Ascii.eqb c ch then 1 else 0) + Count rest ch
  end.

End strings.

(** ** Package [k8s.io/apimachinery/pkg/apis/meta/v1] *)
Module metav1.

Definition StatusFailure : string := "Failure".
Definition StatusReasonForbidden : string := "Forbidden".

Record Status := {
  Status_ : string;
  Message : string;
  Reason : string;
  Code : nat;
}.

(** [&metav1.Status{}] *)
Definition emptyStatus : Status :=
  {| Status_ := ""; Message := ""; Reason := ""; Code := 0 |}.

(** The Go type an object was decoded into. *)
Inductive ObjectType := Ingress | Namespace_ | Pod | Service.

(** A decoded object behind the [metav1.Object] interface: a pointer to one
    of [extensions.Ingress], [v1.Namespace], [core.Pod], [core.Service].
    The pointer is shared by the engine and the authorizers, so the object is
    threaded through the calls like the rest of the state. *)
Record Object `{Types} := {
  TypeOf : ObjectType;
  Name : string;
  GenerateName : string;
  Namespace : string;
  Spec : ObjectSpec;
}.

Section methods.
Context `{Types}.

Definition GetName (o : Object) : string := Name o.
Definition GetGenerateName (o : Object) : string := GenerateName o.
Definition GetNamespace (o : Object) : string := Namespace o.

Definition SetNamespace (ns : string) (o : Object) : Object :=
  {| TypeOf := TypeOf o; Name := Name o; GenerateName := GenerateName o;
     Namespace := ns; Spec := Spec o |}.

End methods.
End metav1.

(** ** Package [k8s.io/apimachinery/pkg/util/validation/field] *)
Module field.

Inductive ErrorType :=
| ErrorTypeNotFound
| ErrorTypeRequired
| ErrorTypeDuplicate
| ErrorTypeInvalid
| ErrorTypeNotSupported
| ErrorTypeForbidden
| ErrorTypeTooLong
| ErrorTypeInternal.

#[global] Instance ErrorType_eq_dec : EqDecision ErrorType.
Proof. solve_decision. Defined.

Record Error `{Types} := {
  Type_ : ErrorType;
  Field : string;
  BadValue : Value;
  Detail : string;
}.

Definition ErrorList `{Types} := list Error.

End field.

(** ** Package [k8s.io/api/admission/v1beta1] *)
Module admission.

Record AdmissionRequest := {
  UID : string;
  (** [Request.Kind.Kind] *)
  Kind : string;
  Namespace : string;
  (** [Request.Object.Raw] *)
  Raw : list Byte.byte;
}.

Record AdmissionResponse := {
  Allowed : bool;
  (** [Result *metav1.Status], [nil] when absent *)
  Result : option metav1.Status;
}.

Record AdmissionReview := {
  Request : AdmissionRequest;
  (** [Response *AdmissionResponse], [nil] until the review is answered *)
  Response : option AdmissionResponse;
}.

Definition setResponse (review : AdmissionReview) (r : AdmissionResponse) : AdmissionReview :=
  {| Request := Request review; Response := Some r |}.

End admission.

(** ** Package [pkg/api] *)
Module api.

(** Modelled from the spec: the file of [pkg/api] that declares the filter
    constants is not among the sources; the supported object kinds are
    "Pod, Namespace, Ingress, Service". *)
Definition FilterPods : string := "Pod".
Definition FilterNamespace : string := "Namespace".
Definition FilterIngresses : string := "Ingress".
Definition FilterServices : string := "Service".

(** Modelled from the spec: [api.Filter], "AuthorizerFilter -- (Kind,
    IgnoreNamespaces : set of names, IgnoreOnFailure : bool)"; the fields are
    those [handleAdmissionReview] reads. *)
Record Filter := {
  IgnoreNamespaces : list string;
  IgnoreOnFailure : bool;
  Kind : string;
}.

(** Modelled from the spec: the [api.Authorize] interface, "Each authorizer
    exposes: Name() -> string, FilterOn() -> AuthorizerFilter, Admit(client,
    cache, object) -> list of Violation".  [Admit] receives the client, the
    cache and a pointer to the object: it reads and may change what is behind
    them, so it returns them next to its violations.  [Name] and [FilterOn]
    are taken to answer the same throughout one review (a reload of the
    configuration in the middle of a review is not modelled), and [Admit] to
    return (a panic inside an authorizer is not modelled). *)
Record Authorize `{Types} := {
  Name : string;
  FilterOn : Filter;
  Admit : World → metav1.Object → field.ErrorList * World * metav1.Object;
}.

End api.

(** The functions the sources call in libraries and in files of the
    repository that are not among the sources. *)
Class Collaborators `{Types} := {
  (** [fmt]'s rendering of a value under the verb [%v] *)
  fmt_v : Value → string;
  (** [json.Unmarshal(raw, object)] where [object] is a fresh zero value of
      the given Go type: the decoded object, or the decoder's error *)
  json_Unmarshal : list Byte.byte → metav1.ObjectType → result metav1.Object;
  (** [c.createPodDeniedEvent(c.client, object, message)] of [pkg/server] *)
  createPodDeniedEvent : World → metav1.Object → string → World;
  (** [utils.NewHTTPServer(listen, cert, key)] *)
  NewHTTPServer : string → string → string → result HTTPServer;
  (** [<module>.NewFromFile(path)] of the policy module of the given name *)
  NewFromFile : string → string → result api.Authorize;
  (** [newWrapper(name, path)] of [pkg/authorize], the reloadable wrapper *)
  newWrapper : string → string → result api.Authorize;
}.

(** ** Package [pkg/utils] *)
Module utils.

(** Modelled from the spec: [utils.Contained(value, list)] is not among the
    sources; the engine skips an authorizer "if its filter's
    IgnoreNamespaces contains the review namespace". *)
Fixpoint Contained (value : string) (list : list string) : bool :=
  match list with
  | [] => false
  | x :: rest => if String.eqb x value then true else Contained value rest
  end.

End utils.

(** ** Package [github.com/prometheus/client_golang/prometheus] *)
Module prometheus.
Section vec.
Context `{Countable L}.

(** A counter vector: the children created so far, by label values. *)
Definition WithLabelValues (labels : L) (vec : gmap L nat) : gmap L nat :=
  match vec !! labels with
  | Some _ => vec
  | None => <[labels := 0]> vec
  end.

(** [vec.WithLabelValues(labels).Inc()] *)
Definition Inc (labels : L) (vec : gmap L nat) : gmap L nat :=
  <[labels := S (default 0 (vec !! labels))]> vec.

(** The value a scrape reports for the child of these labels. *)
Definition value (labels : L) (vec : gmap L nat) : nat :=
  default 0 (vec !! labels).

End vec.
End prometheus.

(** ** Package [github.com/sirupsen/logrus] *)
Module log.

Inductive Level := Info | Warn | Error.

Record Entry := {
  level : Level;
  msg : string;
  (** [log.Fields], in the order the source lists them *)
  fields : list (string * string);
}.

End log.

(** ** Package [pkg/server] *)
Module server.

(** [ErrNotSupported] indicates the object type is not supported. *)
Definition ErrNotSupported : error := "unsupported object type".

Definition actionDenied : string := "deny".
Definition actionAccepted : string := "accept".
Definition actionErrored : string := "error".

(** [http.StatusForbidden] *)
Definition StatusForbidden : nat := 403.

(** The metrics of the package, as the registry holds them. *)
Record Metrics := {
  (** [admissionErrorMetric], a plain counter *)
  admissionErrorMetric : nat;
  (** [admissionTotalMetric], labelled by action *)
  admissionTotalMetric : gmap string nat;
  (** [admissionAuthorizerActionMetric], labelled by authorizer and action *)
  admissionAuthorizerActionMetric : gmap (string * string) nat;
  (** [admissionAuthorizerLatencyMetric], labelled by authorizer: the number
      of observations (the observed durations are not modelled) *)
  admissionAuthorizerLatencyMetric : gmap string nat;
}.

(** Modelled from the spec: the [Config] structure of [pkg/server] is not
    among the sources; its fields are those [main] sets and [New] reads. *)
Record Config := {
  EnableEvents : bool;
  EnableLogging : bool;
  EnableMetrics : bool;
  Listen : string;
  Namespace : string;
  TLSCert : string;
  TLSKey : string;
}.

(** The [echo] router [New] builds. *)
Inductive Middleware := Recover | admissionMiddlerware.
Inductive Handler := admitHandler | healthHandler | metricsHandler.

Record Echo := {
  middlewares : list Middleware;
  HideBanner : bool;
  routes : list (string * string * Handler);
}.

Section engine.
Context `{Collaborators}.

(** What one request mutates beside the object under review. *)
Record State := {
  world : World;
  metrics : Metrics;
  logs : list log.Entry;
}.

(** Modelled from the spec: the [Admission] structure of [pkg/server] is not
    among the sources; its fields are those [New] sets.  The client and the
    cache are pointers, what they point to is [world]; [resourceCache] keeps
    the two durations the cache is created with, in seconds, and [engine] is
    also [server.Handler]. *)
Record Admission := {
  config : Config;
  providers : list api.Authorize;
  resourceCache : nat * nat;
  engine : Echo;
  server_ : option HTTPServer;
}.

(** [admissionResult] is the result of an admission review. *)
Record admissionResult := {
  Allowed : bool;
  Object : metav1.Object;
  Status : metav1.Status;
}.

(** One call of an authorizer's [Admit], as a probe on the engine sees it:
    the position of the authorizer in [c.providers], the object it was
    handed and the violations it returned. *)
Record Invocation := {
  position : nat;
  passed : metav1.Object;
  returned : field.ErrorList;
}.

Definition with_world (w : World) (st : State) : State :=
  {| world := w; metrics := metrics st; logs := logs st |}.

Definition with_metrics (m : Metrics) (st : State) : State :=
  {| world := world st; metrics := m; logs := logs st |}.

(** [log.WithFields(fields).<Level>(msg)] *)
Definition logf (lvl : log.Level) (fields : list (string * string)) (msg : string)
    (st : State) : State :=
  {| world := world st; metrics := metrics st;
     logs := logs st ++ [ {| log.level := lvl; log.msg := msg; log.fields := fields |} ] |}.

(** [admissionErrorMetric.Inc()] *)
Definition incError (st : State) : State :=
  let m := metrics st in
  with_metrics
    {| admissionErrorMetric := S (admissionErrorMetric m);
       admissionTotalMetric := admissionTotalMetric m;
       admissionAuthorizerActionMetric := admissionAuthorizerActionMetric m;
       admissionAuthorizerLatencyMetric := admissionAuthorizerLatencyMetric m |} st.

(** [admissionTotalMetric.WithLabelValues(action).Inc()] *)
Definition incTotal (action : string) (st : State) : State :=
  let m := metrics st in
  with_metrics
    {| admissionErrorMetric := admissionErrorMetric m;
       admissionTotalMetric := prometheus.Inc action (admissionTotalMetric m);
       admissionAuthorizerActionMetric := admissionAuthorizerActionMetric m;
       admissionAuthorizerLatencyMetric := admissionAuthorizerLatencyMetric m |} st.

(** [admissionAuthorizerActionMetric.WithLabelValues(name, action).Inc()] *)
Definition incAction (name action : string) (st : State) : State :=
  let m := metrics st in
  with_metrics
    {| admissionErrorMetric := admissionErrorMetric m;
       admissionTotalMetric := admissionTotalMetric m;
       admissionAuthorizerActionMetric :=
         prometheus.Inc (name, action) (admissionAuthorizerActionMetric m);
       admissionAuthorizerLatencyMetric := admissionAuthorizerLatencyMetric m |} st.

(** [admissionAuthorizerActionMetric.WithLabelValues(name, action)], the
    child looked up (and created when new) but not incremented *)
Definition touchAction (name action : string) (st : State) : State :=
  let m := metrics st in
  with_metrics
    {| admissionErrorMetric := admissionErrorMetric m;
       admissionTotalMetric := admissionTotalMetric m;
       admissionAuthorizerActionMetric :=
         prometheus.WithLabelValues (name, action) (admissionAuthorizerActionMetric m);
       admissionAuthorizerLatencyMetric := admissionAuthorizerLatencyMetric m |} st.

(** [admissionAuthorizerLatencyMetric.WithLabelValues(name).Observe(...)] *)
Definition observeLatency (name : string) (st : State) : State :=
  let m := metrics st in
  with_metrics
    {| admissionErrorMetric := admissionErrorMetric m;
       admissionTotalMetric := admissionTotalMetric m;
       admissionAuthorizerActionMetric := admissionAuthorizerActionMetric m;
       admissionAuthorizerLatencyMetric :=
         prometheus.Inc name (admissionAuthorizerLatencyMetric m) |} st.

(** The [switch kind] of [getResourceForReview]: the Go type of the zero
    value [object] is set to, [None] for the [default] case. *)
Definition objectFor (kind : string) : option metav1.ObjectType :=
  if String.eqb kind api.FilterIngresses then Some metav1.Ingress
  else if String.eqb kind api.FilterNamespace then Some metav1.Namespace_
  else if String.eqb kind api.FilterPods then Some metav1.Pod
  else if String.eqb kind api.FilterServices then Some metav1.Service
  else None.

(** [getResourceForReview] checks the kind of resource and decodes into the
    specific type. *)
Definition getResourceForReview (kind : string) (review : admission.AdmissionReview)
    : result metav1.Object :=
  match objectFor kind with
  | None => Err ErrNotSupported
  | Some type =>
      match json_Unmarshal (admission.Raw (admission.Request review)) type with
      | Err err => Err err
      | Ok object => Ok object
      end
  end.

(** [fmt.Sprintf("%s=%v : %s", x.Field, x.BadValue, x.Detail)] *)
Definition reason (x : field.Error) : string :=
  field.Field x +:+ "=" +:+ fmt_v (field.BadValue x) +:+ " : " +:+ field.Detail x.

(** The body of [for _, x := range errs] that decides [skipme]: the flag and
    the state after one violation. *)
Definition checkInternal (provider : api.Authorize) (object : metav1.Object)
    (acc : bool * State) (x : field.Error) : bool * State :=
  if decide (field.Type_ x = field.ErrorTypeInternal) then
    if api.IgnoreOnFailure (api.FilterOn provider) then
      (true,
       logf log.Warn
         [("error", field.Detail x);
          ("name", metav1.GetGenerateName object);
          ("namespace", metav1.GetNamespace object)]
         "internal provider error, skipping the provider result" acc.2)
    else acc
  else acc.

(** How the body of the loop over [c.providers] is left. *)
Inductive Flow :=
| Continue (object : metav1.Object) (st : State)
| Return (res : admissionResult) (st : State).

(** The body of [for _, provider := range c.providers], for the provider at
    position [i]: how it is left, and the calls of [Admit] it made. *)
Definition iteration (kind : string) (review : admission.AdmissionReview) (i : nat)
    (provider : api.Authorize) (object : metav1.Object) (st : State)
    : Flow * list Invocation :=
  let namespace := admission.Namespace (admission.Request review) in
  if negb (String.eqb (api.Kind (api.FilterOn provider)) kind) then
    (Continue object st, [])
  else if utils.Contained namespace (api.IgnoreNamespaces (api.FilterOn provider)) then
    (Continue object
       (logf log.Warn
          [("name", metav1.GetName object);
           ("namespace", namespace);
           ("provider", api.Name provider)]
          "provider is ignored on this namespace" st), [])
  else
    let object := metav1.SetNamespace namespace object in
    let '(errs, w, object') := api.Admit provider (world st) object in
    let st := observeLatency (api.Name provider) (with_world w st) in
    let call := {| position := i; passed := object; returned := errs |} in
    if (0 <? length errs)%nat then
      let st := incAction (api.Name provider) actionDenied st in
      let '(skipme, st) := fold_left (checkInternal provider object') errs (false, st) in
      if skipme then (Continue object' st, [call])
      else
        (Return {| Allowed := false;
                   Object := object';
                   Status := {| metav1.Status_ := ""; 
                                metav1.Message := strings.Join (map reason errs) ",";
                                metav1.Reason := "";
                                metav1.Code := 0 |} |} st, [call])
    else
      (Continue object' (touchAction (api.Name provider) actionAccepted st), [call]).

(** The loop over the providers from position [i] on. *)
Fixpoint iterate (kind : string) (review : admission.AdmissionReview)
    (providers : list api.Authorize) (i : nat) (object : metav1.Object) (st : State)
    : Flow * list Invocation :=
  match providers with
  | [] => (Continue object st, [])
  | provider :: rest =>
      match iteration kind review i provider object st with
      | (Continue object' st', calls) =>
          let '(flow, calls') := iterate kind review rest (S i) object' st' in
          (flow, calls ++ calls')
      | (Return res st', calls) => (Return res st', calls)
      end
  end.

(** [handleAdmissionReview] is responsible for handling the review and
    returning a result. *)
Definition handleAdmissionReview (c : Admission) (review : admission.AdmissionReview)
    (st : State) : result admissionResult * State * list Invocation :=
  let kind := admission.Kind (admission.Request review) in
  match getResourceForReview kind review with
  | Err err => (Err err, st, [])
  | Ok object =>
      match iterate kind review (providers c) 0 object st with
      | (Return res st', calls) => (Ok res, st', calls)
      | (Continue object' st', calls) =>
          (Ok {| Allowed := true; Object := object'; Status := metav1.emptyStatus |},
           st', calls)
      end
  end.

(** [admit] is responsible for applying the policy on the incoming request
    (named [admit_] here, [admit] being a tactic): the error returned ([None] for [nil]), the review with its response, the
    state left behind and the calls of [Admit] made. *)
Definition admit_ (c : Admission) (review : admission.AdmissionReview) (st : State)
    : option error * admission.AdmissionReview * State * list Invocation :=
  match handleAdmissionReview c review st with
  | (Err err, st, calls) =>
      let st :=
        logf log.Error
          [("error", err); ("namespace", admission.Namespace (admission.Request review))]
          "unable to handle admission review" st in
      let st := incError st in
      (Some err, review, st, calls)
  | (Ok res, st, calls) =>
      if negb (Allowed res) then
        let status := Status res in
        let st := incTotal actionDenied st in
        let st :=
          logf log.Warn
            [("error", metav1.Message status);
             ("name", metav1.GetGenerateName (Object res));
             ("namespace", metav1.GetNamespace (Object res))]
            "authorization for object execution denied" st in
        let review :=
          admission.setResponse review
            {| admission.Allowed := false;
               admission.Result :=
                 Some {| metav1.Code := StatusForbidden;
                         metav1.Message := metav1.Message status;
                         metav1.Reason := metav1.StatusReasonForbidden;
                         metav1.Status_ := metav1.StatusFailure |} |} in
        let st :=
          if EnableEvents (config c)
          then with_world (createPodDeniedEvent (world st) (Object res) (metav1.Message status)) st
          else st in
        (None, review, st, calls)
      else
        let st := incTotal actionAccepted st in
        let review :=
          admission.setResponse review
            {| admission.Allowed := true; admission.Result := None |} in
        let st :=
          logf log.Info
            [("name", metav1.GetName (Object res));
             ("namespace", metav1.GetNamespace (Object res))]
            "object is authorized for execution" st in
        (None, review, st, calls)
  end.

(** [New] creates and returns a new admission controller; the log lines it
    writes are appended to [lg]. *)
Definition New (cfg : Config) (providers : list api.Authorize) (lg : list log.Entry)
    : result Admission * list log.Entry :=
  if (length providers <=? 0)%nat then (Err "no authorizers defined", lg)
  else
    let info (m : string) := {| log.level := log.Info; log.msg := m; log.fields := [] |} in
    let lg := lg ++ [info ("policy admission controller, listen: " +:+ Listen cfg)] in
    let lg :=
      lg ++ map (fun x : api.Authorize =>
                   info ("enabling the authorizer: " +:+ api.Name x
                         +:+ ", ignored: "
                         +:+ strings.Join (api.IgnoreNamespaces (api.FilterOn x)) ","
                         +:+ ", filter: " +:+ api.Kind (api.FilterOn x)))
                providers in
    let mws := [Recover] ++ (if EnableLogging cfg then [admissionMiddlerware] else []) in
    let rts :=
      [("POST", "/", admitHandler); ("GET", "/health", healthHandler)]
      ++ (if EnableMetrics cfg then [("GET", "/metrics", metricsHandler)] else []) in
    let e := {| middlewares := mws; HideBanner := true; routes := rts |} in
    match NewHTTPServer (Listen cfg) (TLSCert cfg) (TLSKey cfg) with
    | Err err => (Err err, lg)
    | Ok srv =>
        (Ok {| config := cfg; providers := providers; resourceCache := (60, 300);
               engine := e; server_ := Some srv |}, lg)
    end.

End engine.
End server.

(** ** The policy modules of [pkg/authorize]

    Modelled from the spec: the eight packages are not among the sources;
    their [Name] constants are the module names of the table of minimum
    policy modules. *)
Module domains.
Definition Name : string := "domains".
End domains.

Module images.
Definition Name : string := "images".
End images.

Module imagelist.
Definition Name : string := "imagelist".
End imagelist.

Module kubecertmanager.
Definition Name : string := "kubecertmanager".
End kubecertmanager.

Module namespaces.
Definition Name : string := "namespaces".
End namespaces.

Module securitycontext.
Definition Name : string := "securitycontext".
End securitycontext.

Module services.
Definition Name : string := "services".
End services.

Module tolerations.
Definition Name : string := "tolerations".
End tolerations.

(** ** Package [pkg/authorize] *)
Module authorize.
Section factory.
Context `{Collaborators}.

(** [newAuthorizer] creates a new authorizer by name. *)
Definition newAuthorizer (name path : string) : result api.Authorize :=
  if String.eqb name domains.Name then NewFromFile domains.Name path
  else if String.eqb name images.Name then NewFromFile images.Name path
  else if String.eqb name imagelist.Name then NewFromFile imagelist.Name path
  else if String.eqb name kubecertmanager.Name then NewFromFile kubecertmanager.Name path
  else if String.eqb name namespaces.Name then NewFromFile namespaces.Name path
  else if String.eqb name securitycontext.Name then NewFromFile securitycontext.Name path
  else if String.eqb name services.Name then NewFromFile services.Name path
  else if String.eqb name tolerations.Name then NewFromFile tolerations.Name path
  else Err "unsupported authorizer".

(** [New] creates and returns a provider. *)
Definition New (name path : string) (reloadable : bool) : result api.Authorize :=
  if negb reloadable then newAuthorizer name path
  else newWrapper name path.

End factory.
End authorize.

(** ** Package [main] *)
Module main.
Section cli.
Context `{Collaborators}.

(** [configureAuthorizer] is responsible for creating an authorizer.
    [items[0]] cannot be out of range, [strings.Split] returns at least one
    piece; the branch for it is the runtime panic Go would raise. *)
Definition configureAuthorizer (cfg : string) : result api.Authorize :=
  let items := strings.Split cfg "=" in
  if (2 <? length items)%nat then
    Err "invalid authorizer config, should be name:config_path"
  else
    match items !! 0%nat with
    | None => Err "runtime error: index out of range [0] with length 0"
    | Some providerName =>
        let providerConfig :=
          if (length items =? 2)%nat then default "" (items !! 1%nat) else "" in
        authorize.New providerName providerConfig true
    end.

End cli.
End main.

(** ** The vocabulary of the properties *)
Module probe.
Section probe.
Context `{Collaborators}.

(** The authorizer passes both filters of the loop: its kind is the kind of
    the review and the namespace of the review is not one it ignores. *)
Definition applies (review : admission.AdmissionReview) (provider : api.Authorize) : bool :=
  String.eqb (api.Kind (api.FilterOn provider)) (admission.Kind (admission.Request review))
  && negb (utils.Contained (admission.Namespace (admission.Request review))
             (api.IgnoreNamespaces (api.FilterOn provider))).

Definition isInternal (x : field.Error) : bool :=
  bool_decide (field.Type_ x = field.ErrorTypeInternal).

(** The value of [skipme] after the loop over the violations [errs] of the
    provider ([server.checkInternal] without the log lines). *)
Definition skipme (provider : api.Authorize) (errs : field.ErrorList) : bool :=
  existsb (λ x, isInternal x && api.IgnoreOnFailure (api.FilterOn provider)) errs.

(** How often the authorizer at position [j] was called. *)
Definition invoked (j : nat) (calls : list server.Invocation) : nat :=
  length (filter (λ call, server.position call = j) calls).

(** The status [admit] answers a denial with. *)
Definition forbidden (message : string) : metav1.Status :=
  {| metav1.Status_ := "Failure"; metav1.Message := message;
     metav1.Reason := "Forbidden"; metav1.Code := 403 |}.

(** The value of the per-authorizer action counter. *)
Definition actionCount (name action : string) (st : server.State) : nat :=
  prometheus.value (name, action) (server.admissionAuthorizerActionMetric (server.metrics st)).

Definition totalCount (action : string) (st : server.State) : nat :=
  prometheus.value action (server.admissionTotalMetric (server.metrics st)).

Definition errorCount (st : server.State) : nat :=
  server.admissionErrorMetric (server.metrics st).

(** The state after the call of a provider that left the world [w]: the
    world stored, the latency observed. *)
Definition timed (provider : api.Authorize) (w : World) (st : server.State) : server.State :=
  server.observeLatency (api.Name provider) (server.with_world w st).

(** The state after the violations [errs] of a called provider were
    examined: the denial counted, the skipped internal errors logged. *)
Definition examined (provider : api.Authorize) (object : metav1.Object)
    (errs : field.ErrorList) (w : World) (st : server.State) : server.State :=
  (fold_left (server.checkInternal provider object) errs
     (false, server.incAction (api.Name provider) server.actionDenied (timed provider w st))).2.

(** The result a denial by the violations [errs] is returned with. *)
Definition denial (object : metav1.Object) (errs : field.ErrorList) : server.admissionResult :=
  {| server.Allowed := false;
     server.Object := object;
     server.Status := {| metav1.Status_ := "";
                         metav1.Message := strings.Join (map server.reason errs) ",";
                         metav1.Reason := "";
                         metav1.Code := 0 |} |}.

End probe.
End probe.

Module shape.
Section shape.
Context `{Collaborators}.

(** A call whose violations did not stop the loop: none were returned, or
    they were skipped. *)
Definition tolerated (providers : list api.Authorize) (i : nat) (call : server.Invocation) : Prop :=
  ∃ provider, providers !! (server.position call - i)%nat = Some provider
              ∧ (i ≤ server.position call)%nat
              ∧ (server.returned call = [] ∨ probe.skipme provider (server.returned call) = true).

(** What a run of the loop over [providers] from position [i] looks like. *)
Definition run (review : admission.AdmissionReview) (providers : list api.Authorize)
    (i : nat) (out : server.Flow * list server.Invocation) : Prop :=
  match out with
  | (server.Continue _ _, calls) =>
      Forall (tolerated providers i) calls
      ∧ ∀ k provider, providers !! k = Some provider →
          probe.invoked (i + k) calls = if probe.applies review provider then 1%nat else 0%nat
  | (server.Return res _, calls) =>
      ∃ d provider init call,
        providers !! d = Some provider
        ∧ probe.applies review provider = true
        ∧ calls = init ++ [call]
        ∧ server.position call = (i + d)%nat
        ∧ server.returned call ≠ []
        ∧ probe.skipme provider (server.returned call) = false
        ∧ (∃ object, res = probe.denial object (server.returned call))
        ∧ Forall (tolerated providers i) init
        ∧ Forall (λ c, (server.position c < i + d)%nat) init
        ∧ ∀ k provider', providers !! k = Some provider' →
            probe.invoked (i + k) calls
            = if decide (k ≤ d)%nat
              then (if probe.applies review provider' then 1%nat else 0%nat)
              else 0%nat
  end.

End shape.
End shape.

(** ** A small cluster to run the engine on *)
Module cluster.

(** The world is the list of denial events created so far, a pod is its
    list of images, bad values are already rendered. *)
Definition types : Types :=
  {| World := list string; ObjectSpec := list string; Value := string;
     HTTPServer := string |}.
#[local] Existing Instance types.

(** The decoder accepts every non-empty document and always finds the same
    pod in it, in the namespace [embedded]. *)
Definition decoded (type : metav1.ObjectType) : metav1.Object :=
  {| metav1.TypeOf := type; metav1.Name := "web"; metav1.GenerateName := "web-";
     metav1.Namespace := "embedded"; metav1.Spec := ["quay.io/ok/app:1"] |}.

Definition decode (raw : list Byte.byte) (type : metav1.ObjectType) : result metav1.Object :=
  match raw with
  | [] => Err "unexpected end of JSON input"
  | _ => Ok (decoded type)
  end.

Definition accepting (name : string) : api.Authorize :=
  {| api.Name := name;
     api.FilterOn := {| api.IgnoreNamespaces := ["kube-system"];
                        api.IgnoreOnFailure := false;
                        api.Kind := "Pod" |};
     api.Admit := λ w o, ([], w, o) |}.

Definition collaborators : @Collaborators types :=
  @Build_Collaborators types
    (* fmt_v *) (λ v : string, v)
    (* json_Unmarshal *) decode
    (* createPodDeniedEvent *) (λ (w : list string) (o : metav1.Object) m, w ++ [m])
    (* NewHTTPServer *) (λ listen cert key, Ok listen)
    (* NewFromFile *) (λ name path, Ok (accepting name))
    (* newWrapper *) (λ name path, Ok (accepting name)).
#[local] Existing Instance collaborators.

Definition violation (t : field.ErrorType) (f v d : string) : field.Error :=
  {| field.Type_ := t; field.Field := f; field.BadValue := v; field.Detail := d |}.

Definition privileged : field.Error :=
  violation field.ErrorTypeForbidden
    "spec.containers[0].securityContext.privileged" "true" "privileged is not allowed".

Definition untrusted : field.Error :=
  violation field.ErrorTypeInvalid
    "spec.containers[0].image" "quay.io/ok/app:1" "image is not on the list".

Definition timeout : field.Error :=
  violation field.ErrorTypeInternal "" "" "fetching the image list timed out".

(** An authorizer for the given kind that always returns the same
    violations and touches neither the world nor the object. *)
Definition fixed (name kind : string) (ignored : list string) (ignoreOnFailure : bool)
    (errs : field.ErrorList) : api.Authorize :=
  {| api.Name := name;
     api.FilterOn := {| api.IgnoreNamespaces := ignored;
                        api.IgnoreOnFailure := ignoreOnFailure;
                        api.Kind := kind |};
     api.Admit := λ w o, (errs, w, o) |}.

(** An authorizer that accepts and moves the object it was handed to
    another namespace. *)
Definition meddling : api.Authorize :=
  {| api.Name := "namespaces";
     api.FilterOn := {| api.IgnoreNamespaces := [];
                        api.IgnoreOnFailure := false;
                        api.Kind := "Pod" |};
     api.Admit := λ w o, ([], w, metav1.SetNamespace "elsewhere" o) |}.

Definition images : api.Authorize := fixed "images" "Pod" ["kube-system"] false [].
Definition securitycontext : api.Authorize :=
  fixed "securitycontext" "Pod" [] false [privileged].
Definition services : api.Authorize :=
  fixed "services" "Service" [] false [privileged].
(** the image list cannot be fetched, and one image is refused as well *)
Definition imagelist : api.Authorize :=
  fixed "imagelist" "Pod" [] true [timeout; untrusted].
Definition imagelist_strict : api.Authorize :=
  fixed "imagelist" "Pod" [] false [timeout].
Definition tolerations : api.Authorize :=
  fixed "tolerations" "Pod" ["dev"] false [untrusted; privileged].

Definition cfg : server.Config :=
  {| server.EnableEvents := true; server.EnableLogging := false;
     server.EnableMetrics := false; server.Listen := ":8443";
     server.Namespace := "kube-admission"; server.TLSCert := ""; server.TLSKey := "" |}.

Definition controller (providers : list api.Authorize) : server.Admission :=
  {| server.config := cfg; server.providers := providers;
     server.resourceCache := (60, 300);
     server.engine := {| server.middlewares := [server.Recover];
                         server.HideBanner := true;
                         server.routes := [("POST", "/", server.admitHandler);
                                           ("GET", "/health", server.healthHandler)] |};
     server.server_ := Some ":8443" |}.

Definition request (kind namespace : string) (raw : list Byte.byte)
    : admission.AdmissionReview :=
  {| admission.Request := {| admission.UID := "705ab4f5"; admission.Kind := kind;
                             admission.Namespace := namespace; admission.Raw := raw |};
     admission.Response := None |}.

Definition body : list Byte.byte := [Byte.x7b; Byte.x7d].

Definition fresh : server.State :=
  {| server.world := [];
     server.metrics := {| server.admissionErrorMetric := 0;
                          server.admissionTotalMetric := ∅;
                          server.admissionAuthorizerActionMetric := ∅;
                          server.admissionAuthorizerLatencyMetric := ∅ |};
     server.logs := [] |}.

End cluster.

(** ** Package [pkg/server], [Start], and package [main], the [Action] of
    the application *)
Module command.

(** The values of the options as [cli.Context] hands them to [Action]:
    [cx.StringSlice("authorizer")], [cx.Bool("enable-events")], ... *)
Record Context := {
  authorizer : list string;
  enable_events : bool;
  enable_logging : bool;
  listen : string;
  namespace : string;
  tls_cert : string;
  tls_key : string;
}.

(** [c.getKubernetesClient()] of [pkg/server] is not among the sources: the
    client it builds for the controller, or its error. *)
Class Platform `{Types} := {
  Client : Type;
  getKubernetesClient : server.Admission → result Client;
}.

Section command.
Context `{Collaborators} `{!Platform}.

(** A controller with the field [c.client] ([None] for [nil]), which
    [server.Admission] leaves to [server.World], and whether the goroutine
    that runs [c.engine.StartServer(c.server)] was started. *)
Record Controller := {
  admission_ : server.Admission;
  client : option Client;
  serving : bool;
}.

(** [Start] is responsible for starting the service up: the error returned
    and the controller afterwards.  What the goroutine does later (serve, or
    [log.Fatal] when the server cannot be created) is not modelled. *)
Definition Start (c : Controller) : option error * Controller :=
  match client c with
  | None =>
      match getKubernetesClient (admission_ c) with
      | Err err => (Some err, c)
      | Ok cl =>
          (None, {| admission_ := admission_ c; client := Some cl; serving := true |})
      end
  | Some cl =>
      (None, {| admission_ := admission_ c; client := Some cl; serving := true |})
  end.

(** How [Action] ends: [fmt.Fprintf(os.Stderr, format, err)] followed by
    [os.Exit(code)], or blocked on [<-signalChannel] with the controller
    started (it returns [nil] when a signal arrives). *)
Inductive Outcome :=
| Exit (code : nat) (format : string) (err : error)
| Wait (c : Controller).

(** The line feed of the Go string literals. *)
Definition LF : string := String (ascii_of_nat 10) "".

(** The loop [for _, config := range cx.StringSlice("authorizer")]: the
    authorizers appended to [authorizers], or the error of the first
    configuration that cannot be enabled. *)
Fixpoint enable (configs : list string) (authorizers : list api.Authorize)
    : result (list api.Authorize) :=
  match configs with
  | [] => Ok authorizers
  | config :: rest =>
      match main.configureAuthorizer config with
      | Err err => Err err
      | Ok authorizer => enable rest (authorizers ++ [authorizer])
      end
  end.

(** The [server.Config] that [Action] builds: [EnableMetrics] is not among
    the fields it sets and keeps its zero value. *)
Definition configOf (cx : Context) : server.Config :=
  {| server.EnableEvents := enable_events cx;
     server.EnableLogging := enable_logging cx;
     server.EnableMetrics := false;
     server.Listen := listen cx;
     server.Namespace := namespace cx;
     server.TLSCert := tls_cert cx;
     server.TLSKey := tls_key cx |}.

(** The [Action] of the application, up to the point where it waits for a
    termination signal; the log lines of [server.New] are appended to [lg]. *)
Definition Action (cx : Context) (lg : list log.Entry) : Outcome * list log.Entry :=
  match enable (authorizer cx) [] with
  | Err err => (Exit 1 "[error] unable to enable authorizer: %s" err, lg)
  | Ok authorizers =>
      match server.New (configOf cx) authorizers lg with
      | (Err err, lg) =>
          (Exit 1 ("[error] unable to initialize controller, %q" +:+ LF) err, lg)
      | (Ok ctl, lg) =>
          match Start {| admission_ := ctl; client := None; serving := false |} with
          | (Some err, _) =>
              (Exit 1 ("[error] unable to start controller, %q" +:+ LF) err, lg)
          | (None, c) => (Wait c, lg)
          end
      end
  end.

End command.
End command.

(** ** More vocabulary for the properties *)
Module tally.
Section tally.
Context `{Collaborators}.

(** The state a turn or a run of the loop is left in. *)
Definition after (flow : server.Flow) : server.State :=
  match flow with
  | server.Continue _ st => st
  | server.Return _ st => st
  end.

(** The call was made to an authorizer of this name. *)
Definition named (providers : list api.Authorize) (name : string)
    (call : server.Invocation) : bool :=
  bool_decide (api.Name <$> providers !! server.position call = Some name).

(** The call returned violations. *)
Definition denying (call : server.Invocation) : bool :=
  match server.returned call with
  | [] => false
  | _ :: _ => true
  end.

(** The number of calls to authorizers of this name. *)
Definition calls_of (providers : list api.Authorize) (name : string)
    (calls : list server.Invocation) : nat :=
  length (filter (λ call, named providers name call) calls).

(** The number of calls to authorizers of this name that returned violations. *)
Definition denials_of (providers : list api.Authorize) (name : string)
    (calls : list server.Invocation) : nat :=
  length (filter (λ call, named providers name call && denying call) calls).

(** The number of observations of the latency histogram of an authorizer. *)
Definition latencyCount (name : string) (st : server.State) : nat :=
  prometheus.value name (server.admissionAuthorizerLatencyMetric (server.metrics st)).

(** The metrics of [st'] are those of [st] with the calls counted: one
    observation of the latency per call, one "deny" per call that returned
    violations, nothing else. *)
Definition accounted (providers : list api.Authorize) (st st' : server.State)
    (calls : list server.Invocation) : Prop :=
  probe.errorCount st' = probe.errorCount st
  ∧ (∀ action, probe.totalCount action st' = probe.totalCount action st)
  ∧ (∀ name action,
       probe.actionCount name action st'
       = (probe.actionCount name action st
          + if decide (action = "deny") then denials_of providers name calls else 0)%nat)
  ∧ (∀ name, latencyCount name st'
             = (latencyCount name st + calls_of providers name calls)%nat).

(** The line logged for an internal error that is skipped. *)
Definition skipped_entry (object : metav1.Object) (x : field.Error) : log.Entry :=
  {| log.level := log.Warn;
     log.msg := "internal provider error, skipping the provider result";
     log.fields := [("error", field.Detail x);
                    ("name", metav1.GetGenerateName object);
                    ("namespace", metav1.GetNamespace object)] |}.

End tally.
End tally.

(** ** The small cluster from the command line *)
Module shell.

Definition platform : @command.Platform cluster.types :=
  @command.Build_Platform cluster.types string (λ _, Ok "in-cluster").

Definition options (authorizers : list string) : command.Context :=
  {| command.authorizer := authorizers;
     command.enable_events := true;
     command.enable_logging := true;
     command.listen := ":8443";
     command.namespace := "kube-admission";
     command.tls_cert := "/certs/tls.pem";
     command.tls_key := "/certs/tls-key.pem" |}.

End shell.

(** * Properties of the dispatch engine *)
Local Open Scope nat_scope.

Section dispatch.
Context `{Collaborators}.

Implicit Types (review : admission.AdmissionReview) (provider : api.Authorize).
Implicit Types (object : metav1.Object) (st : server.State).
Implicit Types (errs : field.ErrorList) (calls : list server.Invocation).
Implicit Types (i j k d : nat).

(** The kind and the namespace the engine reads from a review. *)
Local Abbreviation kindOf review := (admission.Kind (admission.Request review)).
Local Abbreviation namespaceOf review := (admission.Namespace (admission.Request review)).

(** *** The loop that decides [skipme] *)

Lemma checkInternal_flag provider object errs b st :
  (fold_left (server.checkInternal provider object) errs (b, st)).1
  = b || probe.skipme provider errs.
Proof.
  revert b st. induction errs as [|x errs IH]; intros b st; simpl.
  - by rewrite orb_false_r.
  - unfold server.checkInternal at 2, probe.isInternal. simpl.
    destruct (decide (field.Type_ x = field.ErrorTypeInternal)) as [Hx|Hx].
    + rewrite (bool_decide_eq_true_2 _ Hx). simpl.
      destruct (api.IgnoreOnFailure (api.FilterOn provider)); rewrite IH; simpl.
      * by rewrite orb_true_r.
      * done.
    + rewrite (bool_decide_eq_false_2 _ Hx). simpl. by rewrite IH.
Qed.

Lemma checkInternal_state provider object errs b st :
  let st' := (fold_left (server.checkInternal provider object) errs (b, st)).2 in
  server.world st' = server.world st ∧ server.metrics st' = server.metrics st.
Proof.
  revert b st. induction errs as [|x errs IH]; intros b st; simpl; [done|].
  unfold server.checkInternal at 2 4.
  destruct (decide _); [|apply IH].
  destruct (api.IgnoreOnFailure _); [|apply IH].
  destruct (IH true (server.logf log.Warn
    [("error", field.Detail x); ("name", metav1.GetGenerateName object);
     ("namespace", metav1.GetNamespace object)]
    "internal provider error, skipping the provider result" st)) as [Hw Hm].
  simpl in *. by rewrite Hw, Hm.
Qed.

Lemma skipme_true provider errs :
  probe.skipme provider errs = true
  ↔ api.IgnoreOnFailure (api.FilterOn provider) = true
    ∧ ∃ x, x ∈ errs ∧ field.Type_ x = field.ErrorTypeInternal.
Proof.
  unfold probe.skipme. rewrite existsb_exists. split.
  - intros (x & Hin & Hx). apply andb_true_iff in Hx as [Hi Hf].
    split; [done|]. exists x. split; [by apply list_elem_of_In|].
    by apply bool_decide_eq_true_1 in Hi.
  - intros (Hf & x & Hin & Hx). exists x. split; [by apply list_elem_of_In|].
    apply andb_true_iff. split; [|done]. by apply bool_decide_eq_true_2.
Qed.

(** *** One turn of the loop over the providers *)

Lemma Contained_elem_of (value : string) (l : list string) :
  utils.Contained value l = true ↔ value ∈ l.
Proof.
  induction l as [|x l IH]; simpl.
  - split; [done|]. by intros ?%not_elem_of_nil.
  - rewrite elem_of_cons. destruct (String.eqb_spec x value) as [->|Hne].
    + split; auto.
    + rewrite IH. split; [auto|]. intros [->|?]; done.
Qed.

Lemma applies_true review provider :
  probe.applies review provider = true
  ↔ api.Kind (api.FilterOn provider) = kindOf review
    ∧ namespaceOf review ∉ api.IgnoreNamespaces (api.FilterOn provider).
Proof.
  unfold probe.applies. rewrite andb_true_iff, negb_true_iff, String.eqb_eq.
  rewrite <- Contained_elem_of, not_true_iff_false. done.
Qed.

(** A provider that does not pass the filters is not called, and the loop
    goes on with the same object, world and metrics. *)
Lemma iteration_filtered review i provider object st :
  probe.applies review provider = false →
  ∃ st', server.iteration (kindOf review) review i provider object st
         = (server.Continue object st', [])
         ∧ server.world st' = server.world st
         ∧ server.metrics st' = server.metrics st.
Proof.
  unfold probe.applies, server.iteration. intros Hf.
  destruct (String.eqb _ _); simpl in *.
  - apply negb_false_iff in Hf. rewrite Hf. eauto.
  - eauto.
Qed.

(** A provider that passes the filters is called once, on the object moved
    to the namespace of the review; what follows depends on its violations. *)
Lemma iteration_called review i provider object st errs w object' :
  probe.applies review provider = true →
  api.Admit provider (server.world st) (metav1.SetNamespace (namespaceOf review) object)
  = (errs, w, object') →
  server.iteration (kindOf review) review i provider object st
  = (match errs with
     | [] => server.Continue object'
               (server.touchAction (api.Name provider) server.actionAccepted
                  (probe.timed provider w st))
     | _ :: _ =>
         if probe.skipme provider errs
         then server.Continue object' (probe.examined provider object' errs w st)
         else server.Return (probe.denial object' errs) (probe.examined provider object' errs w st)
     end,
     [ {| server.position := i;
          server.passed := metav1.SetNamespace (namespaceOf review) object;
          server.returned := errs |} ]).
Proof.
  unfold probe.applies, server.iteration. intros [Hk Hn]%andb_true_iff Hadmit.
  rewrite Hk. apply negb_true_iff in Hn. rewrite Hn. simpl. rewrite Hadmit.
  destruct errs as [|x errs]; [done|].
  change (0 <? length (x :: errs))%nat with true. cbv iota.
  unfold probe.examined, probe.timed.
  destruct (fold_left _ _ _) as [flag st2] eqn:Hfold.
  pose proof (checkInternal_flag provider object' (x :: errs) false
    (server.incAction (api.Name provider) server.actionDenied
       (server.observeLatency (api.Name provider) (server.with_world w st)))) as Hflag.
  rewrite Hfold in Hflag. simpl in Hflag. rewrite Hflag. simpl.
  by destruct (_ || _).
Qed.

(** *** Counting calls *)

Lemma invoked_app j calls calls' :
  probe.invoked j (calls ++ calls') = probe.invoked j calls + probe.invoked j calls'.
Proof. unfold probe.invoked. by rewrite filter_app, length_app. Qed.

Lemma invoked_one j call :
  probe.invoked j [call] = if decide (server.position call = j) then 1 else 0.
Proof.
  unfold probe.invoked. rewrite filter_cons, filter_nil. by destruct (decide _).
Qed.

Lemma invoked_none j calls :
  Forall (λ call, server.position call ≠ j) calls → probe.invoked j calls = 0.
Proof.
  induction 1 as [|call calls Hne _ IH]; [done|].
  change (call :: calls) with ([call] ++ calls).
  rewrite invoked_app, invoked_one, IH. by destruct (decide _).
Qed.

(** *** The loop over the providers *)

(** Unfold one turn of the loop, by whether the provider passes the filters
    and by what its [Admit] returns. *)
Ltac turn review i provider object st :=
  let Happ := fresh "Happ" in
  let Hadmit := fresh "Hadmit" in
  let errs := fresh "errs" in
  let w := fresh "w" in
  let object' := fresh "object'" in
  let st' := fresh "st'" in
  simpl;
  destruct (probe.applies review provider) eqn:Happ;
  [ destruct (api.Admit provider (server.world st)
               (metav1.SetNamespace (namespaceOf review) object))
      as [[errs w] object'] eqn:Hadmit;
    rewrite (iteration_called review i provider object st errs w object' Happ Hadmit);
    destruct errs as [|? ?]; [|destruct (probe.skipme provider (_ :: _)) eqn:?]
  | destruct (iteration_filtered review i provider object st Happ) as (st' & -> & _ & _) ].

(** Every call hands over the object in the namespace of the review. *)
Lemma iterate_passed review providers i object st :
  Forall (λ call, metav1.GetNamespace (server.passed call) = namespaceOf review)
    (server.iterate (kindOf review) review providers i object st).2.
Proof.
  revert i object st.
  induction providers as [|provider rest IH]; intros i object st; [by constructor|].
  turn review i provider object st.
  - specialize (IH (S i) object'
      (server.touchAction (api.Name provider) server.actionAccepted (probe.timed provider w st))).
    destruct (server.iterate _ _ rest _ _ _) as [flow calls]. simpl in *. by constructor.
  - specialize (IH (S i) object' (probe.examined provider object' (e :: errs) w st)).
    destruct (server.iterate _ _ rest _ _ _) as [flow calls]. simpl in *. by constructor.
  - simpl. by repeat constructor.
  - specialize (IH (S i) object st').
    destruct (server.iterate _ _ rest _ _ _) as [flow calls]. done.
Qed.

(** Every call is made to a provider of the list that passes the filters. *)
Lemma iterate_positions review providers i object st :
  Forall (λ call, i ≤ server.position call
                  ∧ ∃ provider, providers !! (server.position call - i) = Some provider
                                ∧ probe.applies review provider = true)
    (server.iterate (kindOf review) review providers i object st).2.
Proof.
  revert i object st.
  induction providers as [|provider rest IH]; intros i object st; [by constructor|].
  assert (∀ calls,
    Forall (λ call, S i ≤ server.position call
                    ∧ ∃ p, rest !! (server.position call - S i) = Some p
                           ∧ probe.applies review p = true) calls →
    Forall (λ call, i ≤ server.position call
                    ∧ ∃ p, (provider :: rest) !! (server.position call - i) = Some p
                           ∧ probe.applies review p = true) calls) as Hshift.
  { intros calls Hcalls. eapply Forall_impl; [exact Hcalls|].
    intros call (Hle & p & Hp & Ha).
    split; [lia|]. exists p. split; [|done].
    by replace (server.position call - i) with (S (server.position call - S i)) by lia. }
  assert (∀ errs o, (λ call, i ≤ server.position call
                    ∧ ∃ p, (provider :: rest) !! (server.position call - i) = Some p
                           ∧ probe.applies review p = true)
     {| server.position := i; server.passed := o; server.returned := errs |}
     ∨ probe.applies review provider = false) as Hhead.
  { intros errs o. destruct (probe.applies review provider) eqn:Ha; [left|by right].
    simpl. split; [done|]. exists provider. by rewrite Nat.sub_diag. }
  turn review i provider object st.
  - specialize (IH (S i) object'
      (server.touchAction (api.Name provider) server.actionAccepted (probe.timed provider w st))).
    destruct (server.iterate _ _ rest _ _ _) as [flow calls]. simpl in *.
    constructor; [|by apply Hshift]. by destruct (Hhead [] (metav1.SetNamespace (namespaceOf review) object)).
  - specialize (IH (S i) object' (probe.examined provider object' (e :: errs) w st)).
    destruct (server.iterate _ _ rest _ _ _) as [flow calls]. simpl in *.
    constructor; [|by apply Hshift].
    by destruct (Hhead (e :: errs) (metav1.SetNamespace (namespaceOf review) object)).
  - simpl. constructor; [|constructor].
    by destruct (Hhead (e :: errs) (metav1.SetNamespace (namespaceOf review) object)).
  - specialize (IH (S i) object st').
    destruct (server.iterate _ _ rest _ _ _) as [flow calls]. simpl in *. by apply Hshift.
Qed.

Lemma iterate_below review providers i j object st :
  j < i → probe.invoked j (server.iterate (kindOf review) review providers i object st).2 = 0.
Proof.
  intros Hlt. apply invoked_none.
  eapply Forall_impl; [apply iterate_positions|]. simpl. intros call [Hle _]. lia.
Qed.

Lemma tolerated_shift provider rest i calls :
  Forall (shape.tolerated rest (S i)) calls →
  Forall (shape.tolerated (provider :: rest) i) calls.
Proof.
  intros Hcalls. eapply Forall_impl; [exact Hcalls|].
  intros call (p & Hp & Hle & Hret). exists p. split; [|split; [lia|done]].
  by replace (server.position call - i) with (S (server.position call - S i)) by lia.
Qed.

(** A turn that goes on, after no call or after one tolerated call, puts its
    calls in front of the run over the rest of the providers. *)
Lemma run_cons review provider rest i head flow calls :
  (head = [] ∧ probe.applies review provider = false)
  ∨ (∃ call, head = [call] ∧ server.position call = i
             ∧ probe.applies review provider = true
             ∧ (server.returned call = []
                ∨ probe.skipme provider (server.returned call) = true)) →
  (∀ j, j < S i → probe.invoked j calls = 0) →
  shape.run review rest (S i) (flow, calls) →
  shape.run review (provider :: rest) i (flow, head ++ calls).
Proof.
  intros Hhead Hbelow Hrun.
  assert (Forall (shape.tolerated (provider :: rest) i) head) as Hhead_ok.
  { destruct Hhead as [[-> _]|(call & -> & Hi & _ & Hret)]; [constructor|].
    constructor; [|constructor]. exists provider.
    rewrite Hi, Nat.sub_diag. by split; [|split; [lia|]]. }
  assert (probe.invoked i head = if probe.applies review provider then 1 else 0) as Hfirst.
  { destruct Hhead as [[-> ->]|(call & -> & Hi & -> & _)]; [done|].
    rewrite invoked_one. by rewrite decide_True. }
  assert (∀ k, probe.invoked (i + S k) head = 0) as Hlater.
  { intros k. destruct Hhead as [[-> _]|(call & -> & Hi & _)]; [done|].
    rewrite invoked_one. rewrite decide_False; [done|lia]. }
  destruct flow as [object' st'|res st']; simpl in *.
  - destruct Hrun as [Htol Hcount]. split.
    + apply Forall_app. split; [done|by apply tolerated_shift].
    + intros [|k] p Hp; rewrite invoked_app; simpl in Hp.
      * injection Hp as <-. rewrite Nat.add_0_r, Hfirst, Hbelow; lia.
      * rewrite Hlater. replace (i + S k) with (S i + k) by lia. by apply Hcount.
  - destruct Hrun as (d & p & init & call & Hp & Happ & -> & Hpos & Hret & Hskip & Hres
                      & Htol & Hbefore & Hcount).
    exists (S d), p, (head ++ init), call.
    split; [done|]. split; [done|]. split; [by rewrite app_assoc|].
    split; [lia|]. split; [done|]. split; [done|]. split; [done|].
    split; [apply Forall_app; split; [done|by apply tolerated_shift]|].
    split.
    + apply Forall_app. split.
      * destruct Hhead as [[-> _]|(c & -> & Hi & _)]; [constructor|].
        constructor; [lia|constructor].
      * eapply Forall_impl; [exact Hbefore|]. simpl. intros; lia.
    + intros [|k] p' Hp'; rewrite invoked_app; simpl in Hp'.
      * injection Hp' as <-. rewrite Nat.add_0_r, Hfirst, Hbelow by lia.
        rewrite decide_True by lia. lia.
      * rewrite Hlater. specialize (Hcount k p' Hp').
        replace (i + S k) with (S (i + k)) by lia. rewrite Hcount. destruct (decide (k ≤ d)), (decide (S k ≤ S d)); done || lia.
Qed.

(** Every run of the loop has the shape [shape.run]. *)
Lemma iterate_run review providers i object st :
  shape.run review providers i (server.iterate (kindOf review) review providers i object st).
Proof.
  revert i object st.
  induction providers as [|provider rest IH]; intros i object st.
  { simpl. split; [constructor|]. intros k p Hp. by rewrite lookup_nil in Hp. }
  turn review i provider object st.
  - pose proof (IH (S i) object'
      (server.touchAction (api.Name provider) server.actionAccepted
         (probe.timed provider w st))) as Hrun.
    pose proof (λ j, iterate_below review rest (S i) j object'
      (server.touchAction (api.Name provider) server.actionAccepted
         (probe.timed provider w st))) as Hbelow.
    destruct (server.iterate _ _ rest _ _ _) as [flow calls].
    apply (run_cons review provider rest i [_]); [|done|done].
    right. eexists. split; [done|]. simpl. auto.
  - pose proof (IH (S i) object' (probe.examined provider object' (e :: errs) w st)) as Hrun.
    pose proof (λ j, iterate_below review rest (S i) j object'
      (probe.examined provider object' (e :: errs) w st)) as Hbelow.
    destruct (server.iterate _ _ rest _ _ _) as [flow calls].
    apply (run_cons review provider rest i [_]); [|done|done].
    right. eexists. split; [done|]. simpl. auto.
  - exists 0, provider, [], {| server.position := i;
      server.passed := metav1.SetNamespace (namespaceOf review) object;
      server.returned := e :: errs |}. simpl.
    split; [done|]. split; [done|]. split; [done|]. split; [lia|]. split; [done|].
    split; [done|]. split; [eauto|]. split; [constructor|]. split; [constructor|].
    intros [|k] p' Hp'; simpl in Hp'; rewrite invoked_one; simpl.
    + injection Hp' as <-. rewrite Happ. by repeat (rewrite decide_True by lia).
    + by repeat (rewrite decide_False by lia).
  - pose proof (IH (S i) object st') as Hrun.
    pose proof (λ j, iterate_below review rest (S i) j object st') as Hbelow.
    destruct (server.iterate _ _ rest _ _ _) as [flow calls].
    apply (run_cons review provider rest i []); [|done|done]. by left.
Qed.

(** *** From the loop to [handleAdmissionReview] and [admit] *)

Lemma objectFor_unsupported (kind : string) :
  kind ∉ ["Pod"; "Namespace"; "Ingress"; "Service"] → server.objectFor kind = None.
Proof.
  intros Hkind. unfold server.objectFor.
  destruct (String.eqb_spec kind api.FilterIngresses) as [->|_]; [set_solver|].
  destruct (String.eqb_spec kind api.FilterNamespace) as [->|_]; [set_solver|].
  destruct (String.eqb_spec kind api.FilterPods) as [->|_]; [set_solver|].
  destruct (String.eqb_spec kind api.FilterServices) as [->|_]; [set_solver|].
  done.
Qed.

Lemma handle_undecoded c review st err :
  server.getResourceForReview (kindOf review) review = Err err →
  server.handleAdmissionReview c review st = (Err err, st, []).
Proof. unfold server.handleAdmissionReview. by intros ->. Qed.

Lemma handle_decoded c review st object :
  server.getResourceForReview (kindOf review) review = Ok object →
  server.handleAdmissionReview c review st
  = match server.iterate (kindOf review) review (server.providers c) 0 object st with
    | (server.Return res st', calls) => (Ok res, st', calls)
    | (server.Continue object' st', calls) =>
        (Ok {| server.Allowed := true; server.Object := object';
               server.Status := metav1.emptyStatus |}, st', calls)
    end.
Proof. unfold server.handleAdmissionReview. by intros ->. Qed.

Lemma admit_calls c review st :
  (server.admit_ c review st).2 = (server.handleAdmissionReview c review st).2.
Proof.
  unfold server.admit_.
  destruct (server.handleAdmissionReview c review st) as [[[res|err] st'] calls]; [|done].
  by destruct (server.Allowed res).
Qed.

(** The calls of a review are those of one run of the loop from position 0,
    or none. *)
Lemma handle_run c review st :
  match server.handleAdmissionReview c review st with
  | (Err _, st', calls) => st' = st ∧ calls = []
  | (Ok res, st', calls) =>
      ∃ flow, shape.run review (server.providers c) 0 (flow, calls)
              ∧ match flow with
                | server.Return res' _ => res = res'
                | server.Continue _ _ => server.Allowed res = true
                end
  end.
Proof.
  destruct (server.getResourceForReview (kindOf review) review) as [object|err] eqn:Hdec.
  - rewrite (handle_decoded _ _ _ _ Hdec).
    pose proof (iterate_run review (server.providers c) 0 object st) as Hrun.
    destruct (server.iterate _ _ _ _ _ _) as [[object' st'|res st'] calls].
    + by exists (server.Continue object' st').
    + by exists (server.Return res st').
  - by rewrite (handle_undecoded _ _ _ _ Hdec).
Qed.

Lemma handle_positions c review st :
  Forall (λ call, ∃ provider, server.providers c !! server.position call = Some provider
                              ∧ probe.applies review provider = true)
    (server.handleAdmissionReview c review st).2.
Proof.
  destruct (server.getResourceForReview (kindOf review) review) as [object|err] eqn:Hdec.
  - rewrite (handle_decoded _ _ _ _ Hdec).
    pose proof (iterate_positions review (server.providers c) 0 object st) as Hpos.
    assert (Forall (λ call, ∃ provider, server.providers c !! server.position call = Some provider
                              ∧ probe.applies review provider = true)
              (server.iterate (kindOf review) review (server.providers c) 0 object st).2) as Hgoal.
    { eapply Forall_impl; [exact Hpos|]. simpl. intros call [_ Hp].
      by rewrite Nat.sub_0_r in Hp. }
    by destruct (server.iterate _ _ _ _ _ _) as [[object' st'|res st'] calls].
  - rewrite (handle_undecoded _ _ _ _ Hdec). constructor.
Qed.

(** *** The claims about the dispatch engine *)

(** C1, as the code has it: when a called authorizer returns a non-empty
    violation list, the loop goes on with the authorizers registered after
    it, as after an acceptance, exactly when the filter's IgnoreOnFailure is
    true and AT LEAST ONE violation of the list has Type = Internal (the
    others may be of any type); in every other case of a non-empty list the
    loop returns at once with the denial built from the list. *)
Theorem skipped_iff_some_internal review i provider rest object st errs w object' :
  probe.applies review provider = true →
  api.Admit provider (server.world st) (metav1.SetNamespace (namespaceOf review) object)
  = (errs, w, object') →
  errs ≠ [] →
  let call := {| server.position := i;
                 server.passed := metav1.SetNamespace (namespaceOf review) object;
                 server.returned := errs |} in
  let st' := probe.examined provider object' errs w st in
  let skipped := api.IgnoreOnFailure (api.FilterOn provider) = true
                 ∧ ∃ x, x ∈ errs ∧ field.Type_ x = field.ErrorTypeInternal in
  (skipped →
   server.iterate (kindOf review) review (provider :: rest) i object st
   = (let '(flow, calls) := server.iterate (kindOf review) review rest (S i) object' st' in
      (flow, call :: calls)))
  ∧ (¬ skipped →
     server.iterate (kindOf review) review (provider :: rest) i object st
     = (server.Return (probe.denial object' errs) st', [call])).
Proof.
  intros Happ Hadmit Hne call st' skipped. subst call st' skipped.
  rewrite <- skipme_true. simpl.
  rewrite (iteration_called review i provider object st errs w object' Happ Hadmit).
  destruct errs as [|x errs]; [done|].
  destruct (probe.skipme provider (x :: errs)); split; done.
Qed.

(** C2: once an authorizer returns a non-empty violation list that the
    engine does not skip, no authorizer registered after it is invoked for
    that review, and the review is answered with a denial whose message is
    built from the violations of that authorizer alone. *)
Theorem first_denial_wins c review st call provider :
  call ∈ (server.admit_ c review st).2 →
  server.providers c !! server.position call = Some provider →
  server.returned call ≠ [] →
  probe.skipme provider (server.returned call) = false →
  (∀ j, server.position call < j → probe.invoked j (server.admit_ c review st).2 = 0)
  ∧ last (server.admit_ c review st).2 = Some call
  ∧ (server.admit_ c review st).1.1
    = (None,
       admission.setResponse review
         {| admission.Allowed := false;
            admission.Result :=
              Some (probe.forbidden
                      (strings.Join (map server.reason (server.returned call)) ",")) |}).
Proof.
  intros Hin Hprov Hne Hskip. rewrite admit_calls in *.
  pose proof (handle_run c review st) as Hrun. unfold server.admit_.
  destruct (server.handleAdmissionReview c review st) as [[[res|err] st1] calls];
    simpl in *; [|destruct Hrun as [_ ->]; by apply not_elem_of_nil in Hin].
  assert (∀ init, Forall (shape.tolerated (server.providers c) 0) init → call ∉ init) as Hnot.
  { intros init Htol Hcall. rewrite Forall_forall in Htol.
    destruct (Htol call Hcall) as (p & Hp & _ & Hret).
    rewrite Nat.sub_0_r, Hprov in Hp. injection Hp as <-.
    destruct Hret as [?|Hret]; [done|]. by rewrite Hret in Hskip. }
  destruct Hrun as ([object' st2|res' st2] & Hrun & Hres); simpl in *.
  { destruct Hrun as [Htol _]. by destruct (Hnot calls Htol). }
  subst res'.
  destruct Hrun as (d & p & init & lc & Hp & Happ & -> & Hpos & Hret & Hsk & [o ->]
                    & Htol & Hbefore & Hcount).
  apply elem_of_app in Hin as [Hin|Hin]; [by destruct (Hnot init Htol)|].
  apply list_elem_of_singleton in Hin as ->. simpl.
  split; [|split; [by rewrite last_snoc|done]].
  intros j Hj. apply invoked_none, Forall_app. split.
  - eapply Forall_impl; [exact Hbefore|]. simpl. intros; lia.
  - constructor; [lia|constructor].
Qed.

(** C3: a review whose kind is not one of Pod, Namespace, Ingress, Service
    is answered with the error "unsupported object type", and a review whose
    object cannot be decoded with the error of the decoder: in both cases no
    response is written into the review, no authorizer is invoked and the
    error metric goes up by one. *)
Theorem undecided_is_an_error c review st err :
  ((kindOf review ∉ ["Pod"; "Namespace"; "Ingress"; "Service"])
   ∧ err = server.ErrNotSupported)
  ∨ (∃ type, server.objectFor (kindOf review) = Some type
             ∧ json_Unmarshal (admission.Raw (admission.Request review)) type = Err err) →
  ∃ st', server.admit_ c review st = (Some err, review, st', [])
         ∧ probe.errorCount st' = S (probe.errorCount st)
         ∧ server.world st' = server.world st.
Proof.
  intros Hcause.
  assert (server.getResourceForReview (kindOf review) review = Err err) as Hdec.
  { unfold server.getResourceForReview.
    destruct Hcause as [[Hkind ->]|(type & -> & ->)]; [|done].
    by rewrite (objectFor_unsupported _ Hkind). }
  unfold server.admit_. rewrite (handle_undecoded c review st err Hdec).
  eexists. split; [done|]. done.
Qed.

(** C4: a review the engine denies is answered with Allowed = false and the
    status Code = 403, Reason = Forbidden, Status = Failure, whose message is
    "field=bad_value : detail" of each violation of the authorizer called
    last, the one that denied, joined by commas; a review it accepts is
    answered with Allowed = true and no status.  The answer is read in the
    field Response of the review that [admit] leaves, which returns no
    error and leaves the request as it was. *)
Theorem response_of_verdict c review st res st1 calls :
  server.handleAdmissionReview c review st = (Ok res, st1, calls) →
  let out := server.admit_ c review st in
  out.1.1.1 = None
  ∧ out.2 = calls
  ∧ admission.Request out.1.1.2 = admission.Request review
  ∧ if server.Allowed res
    then admission.Response out.1.1.2
         = Some {| admission.Allowed := true; admission.Result := None |}
    else ∃ call provider,
           last calls = Some call
           ∧ server.providers c !! server.position call = Some provider
           ∧ server.returned call ≠ []
           ∧ admission.Response out.1.1.2
             = Some {| admission.Allowed := false;
                       admission.Result :=
                         Some {| metav1.Status_ := "Failure";
                                 metav1.Message :=
                                   String.concat ","
                                     (map (λ x, field.Field x +:+ "=" +:+ fmt_v (field.BadValue x)
                                                +:+ " : " +:+ field.Detail x)
                                          (server.returned call));
                                 metav1.Reason := "Forbidden";
                                 metav1.Code := 403 |} |}.
Proof.
  intros Hhandle out. subst out. pose proof (handle_run c review st) as Hrun.
  unfold server.admit_. rewrite Hhandle in *.
  destruct (server.Allowed res) eqn:Hallowed; simpl; [done|].
  split; [done|]. split; [done|]. split; [done|].
  destruct Hrun as ([object' st2|res' st2] & Hrun & Hres); simpl in *; [congruence|].
  subst res'.
  destruct Hrun as (d & p & init & lc & Hp & Happ & -> & Hpos & Hret & Hsk & [o ->]
                    & _).
  exists lc, p. rewrite last_snoc. rewrite Hpos. simpl.
  split; [done|]. split; [done|]. split; [done|]. done.
Qed.

(** C5: whatever namespace the encoded object carries and whatever earlier
    authorizers did to the object, every call of [Admit] is handed the
    object in the namespace of the review. *)
Theorem namespace_of_review_is_forced c review st :
  Forall (λ call, metav1.GetNamespace (server.passed call) = namespaceOf review)
    (server.admit_ c review st).2.
Proof.
  rewrite admit_calls.
  destruct (server.getResourceForReview (kindOf review) review) as [object|err] eqn:Hdec.
  - rewrite (handle_decoded _ _ _ _ Hdec).
    pose proof (iterate_passed review (server.providers c) 0 object st) as Hpassed.
    by destruct (server.iterate _ _ _ _ _ _) as [[object' st'|res st'] calls].
  - rewrite (handle_undecoded _ _ _ _ Hdec). constructor.
Qed.

(** C6: an authorizer whose filter kind differs from the kind of the review,
    or whose IgnoreNamespaces contains the namespace of the review, is never
    invoked for that review. *)
Theorem filtered_out_is_never_invoked c review st j provider :
  server.providers c !! j = Some provider →
  api.Kind (api.FilterOn provider) ≠ kindOf review
  ∨ namespaceOf review ∈ api.IgnoreNamespaces (api.FilterOn provider) →
  probe.invoked j (server.admit_ c review st).2 = 0.
Proof.
  intros Hprov Hfilter. rewrite admit_calls. apply invoked_none.
  eapply Forall_impl; [apply handle_positions|]. simpl.
  intros call (p & Hp & Happ) Hj. rewrite Hj, Hprov in Hp. injection Hp as <-.
  apply applies_true in Happ as [Hkind Hns]. by destruct Hfilter.
Qed.


(** *** The per-authorizer action counter *)

Lemma value_WithLabelValues `{Countable L} (k k' : L) (vec : gmap L nat) :
  prometheus.value k (prometheus.WithLabelValues k' vec) = prometheus.value k vec.
Proof.
  unfold prometheus.value, prometheus.WithLabelValues.
  destruct (vec !! k') eqn:Hk'; [done|].
  destruct (decide (k' = k)) as [->|Hne].
  - by rewrite lookup_insert_eq, Hk'.
  - by rewrite lookup_insert_ne.
Qed.

Lemma value_Inc `{Countable L} (k : L) (vec : gmap L nat) :
  prometheus.value k (prometheus.Inc k vec) = S (prometheus.value k vec).
Proof. unfold prometheus.value, prometheus.Inc. by rewrite lookup_insert_eq. Qed.

(** A turn in which the authorizer returns no violation leaves every
    per-authorizer action counter at its value: the child for "accept" is
    looked up, [Inc] is not called on it. *)
Lemma accepting_turn_counts_nothing review i provider object st w object' :
  probe.applies review provider = true →
  api.Admit provider (server.world st) (metav1.SetNamespace (namespaceOf review) object)
  = ([], w, object') →
  ∃ st', (server.iteration (kindOf review) review i provider object st).1
         = server.Continue object' st'
         ∧ ∀ name action, probe.actionCount name action st' = probe.actionCount name action st.
Proof.
  intros Happ Hadmit.
  rewrite (iteration_called review i provider object st [] w object' Happ Hadmit).
  eexists. split; [done|]. intros name action.
  unfold probe.actionCount. simpl. apply value_WithLabelValues.
Qed.

(** The sibling path does count: in the state a turn with violations ends
    in (see [iteration_called]) the counter for "deny" is up by one. *)
Lemma denying_turn_counts provider object' errs w st :
  probe.actionCount (api.Name provider) server.actionDenied
    (probe.examined provider object' errs w st)
  = S (probe.actionCount (api.Name provider) server.actionDenied st).
Proof.
  unfold probe.actionCount, probe.examined.
  destruct (checkInternal_state provider object' errs false
    (server.incAction (api.Name provider) server.actionDenied (probe.timed provider w st)))
    as [_ ->].
  simpl. apply value_Inc.
Qed.

(** *** The constructor of the server *)

(** C9: with an empty list of authorizers [New] returns the error "no
    authorizers defined" and no server, whatever the configuration; nothing
    is logged. *)
Theorem New_without_authorizers (cfg : server.Config) (lg : list log.Entry) :
  server.New cfg [] lg = (Err "no authorizers defined", lg).
Proof. reflexivity. Qed.

End dispatch.

(** * Properties of the factory and of the command line *)
Section cli.
Context `{Collaborators}.

Lemma Split_length (s : string) (sep : ascii) :
  length (strings.Split s sep) = S (strings.Count s sep).
Proof.
  induction s as [|ch s IH]; simpl; [done|].
  destruct (Ascii.eqb ch sep); simpl; [by rewrite IH|].
  destruct (strings.Split s sep) as [|piece pieces]; simpl in *; lia.
Qed.

Lemma Split_without_separator (s : string) (sep : ascii) :
  strings.Count s sep = 0 → strings.Split s sep = [s].
Proof.
  induction s as [|ch s IH]; simpl; [done|].
  destruct (Ascii.eqb ch sep); simpl; [done|].
  intros Hcount. by rewrite (IH Hcount).
Qed.

(** C10: the factory returns the error "unsupported authorizer" for every
    name that is not one of the eight module names; the parser of the
    [--authorizer] option rejects every string with two or more '=', and for
    a string without '=' asks the factory for the authorizer of that name
    with the empty configuration path. *)
Theorem factory_and_parser (name path many bare : string) :
  name ∉ ["domains"; "images"; "imagelist"; "kubecertmanager";
          "namespaces"; "securitycontext"; "services"; "tolerations"] →
  2 ≤ strings.Count many "=" →
  strings.Count bare "=" = 0 →
  authorize.newAuthorizer name path = Err "unsupported authorizer"
  ∧ authorize.New name path false = Err "unsupported authorizer"
  ∧ main.configureAuthorizer many
    = Err "invalid authorizer config, should be name:config_path"
  ∧ main.configureAuthorizer bare = authorize.New bare "" true.
Proof.
  intros Hname Hmany Hbare.
  assert (authorize.newAuthorizer name path = Err "unsupported authorizer") as Hfactory.
  { unfold authorize.newAuthorizer.
    destruct (String.eqb_spec name domains.Name) as [->|_]; [set_solver|].
    destruct (String.eqb_spec name images.Name) as [->|_]; [set_solver|].
    destruct (String.eqb_spec name imagelist.Name) as [->|_]; [set_solver|].
    destruct (String.eqb_spec name kubecertmanager.Name) as [->|_]; [set_solver|].
    destruct (String.eqb_spec name namespaces.Name) as [->|_]; [set_solver|].
    destruct (String.eqb_spec name securitycontext.Name) as [->|_]; [set_solver|].
    destruct (String.eqb_spec name services.Name) as [->|_]; [set_solver|].
    destruct (String.eqb_spec name tolerations.Name) as [->|_]; [set_solver|].
    done. }
  split; [done|]. split; [done|]. split.
  - unfold main.configureAuthorizer.
    pose proof (Split_length many "=") as Hlen.
    destruct (Nat.ltb_spec 2 (length (strings.Split many "="))); [done|lia].
  - unfold main.configureAuthorizer. by rewrite (Split_without_separator bare "=" Hbare).
Qed.

End cli.

(** * The engine at work on the small cluster *)
Section examples.
#[local] Existing Instance cluster.types.
#[local] Existing Instance cluster.collaborators.
Import cluster.

(** The pod of the small cluster as the authorizers are handed it for a
    review in the namespace [prod]. *)
Local Abbreviation pod := (metav1.SetNamespace "prod" (decoded metav1.Pod)).

Local Abbreviation called i errs :=
  {| server.position := i; server.passed := pod; server.returned := errs |}.

Example Split_pair : strings.Split "images=/etc/images.yml" "=" = ["images"; "/etc/images.yml"].
Proof. reflexivity. Qed.

Example Split_empty : strings.Split "" "=" = [""].
Proof. reflexivity. Qed.

Example Split_edges : strings.Split "=a==" "=" = [""; "a"; ""; ""].
Proof. reflexivity. Qed.

Example configure_pair :
  main.configureAuthorizer "images=/etc/images.yml"
  = authorize.New "images" "/etc/images.yml" true.
Proof. reflexivity. Qed.

(** S3 of the specification: the first denial wins. *)
Example first_denial_message :
  (server.admit_ (controller [tolerations; securitycontext]) (request "Pod" "prod" body) fresh).1.1
  = (None,
     admission.setResponse (request "Pod" "prod" body)
       {| admission.Allowed := false;
          admission.Result :=
            Some (probe.forbidden
                    ("spec.containers[0].image=quay.io/ok/app:1 : image is not on the list,"
                     +:+ "spec.containers[0].securityContext.privileged=true : "
                     +:+ "privileged is not allowed")) |}).
Proof. vm_compute. reflexivity. Qed.

(** An authorizer that moves the object does not change what the next one
    is handed. *)
Example meddling_is_undone :
  (server.admit_ (controller [meddling; images]) (request "Pod" "prod" body) fresh).2
  = [called 0 []; called 1 []].
Proof. vm_compute. reflexivity. Qed.

(** C1, counterexample: the authorizer [imagelist] ignores failures and
    returns an Internal violation together with an Invalid one; not every
    violation of the list is Internal, and yet the engine goes on as if the
    authorizer had accepted: the review is allowed. *)
Lemma mixed_violations_are_skipped :
  let out := server.admit_ (controller [imagelist]) (request "Pod" "prod" body) fresh in
  out.2 = [called 0 [timeout; untrusted]]
  ∧ api.IgnoreOnFailure (api.FilterOn imagelist) = true
  ∧ ¬ Forall (λ x, field.Type_ x = field.ErrorTypeInternal) [timeout; untrusted]
  ∧ out.1.1 = (None,
               admission.setResponse (request "Pod" "prod" body)
                 {| admission.Allowed := true; admission.Result := None |}).
Proof.
  split; [by vm_compute|]. split; [done|]. split; [|by vm_compute].
  intros Hall. apply Forall_cons in Hall as [_ Hall].
  apply Forall_cons in Hall as [Hinvalid _]. discriminate Hinvalid.
Qed.

Lemma skipped_iff_some_internal_witness :
  let review := request "Pod" "prod" body in
  let st' := probe.examined imagelist pod [timeout; untrusted] [] fresh in
  let strict' := probe.examined imagelist_strict pod [timeout] [] fresh in
  (** an Internal violation among others, failures ignored: the loop goes on *)
  server.iterate "Pod" review [imagelist; images] 0 (decoded metav1.Pod) fresh
  = (let '(flow, calls) := server.iterate "Pod" review [images] 1 pod st' in
     (flow, called 0 [timeout; untrusted] :: calls))
  (** an Internal violation, failures not ignored: the loop returns *)
  ∧ server.iterate "Pod" review [imagelist_strict; images] 0 (decoded metav1.Pod) fresh
    = (server.Return (probe.denial pod [timeout]) strict', [called 0 [timeout]]).
Proof.
  split.
  - apply (skipped_iff_some_internal (request "Pod" "prod" body) 0 imagelist [images]
             (decoded metav1.Pod) fresh [timeout; untrusted] [] pod);
      [reflexivity | reflexivity | discriminate |].
    split; [reflexivity|]. exists timeout. split; [left | reflexivity].
  - apply (skipped_iff_some_internal (request "Pod" "prod" body) 0 imagelist_strict [images]
             (decoded metav1.Pod) fresh [timeout] [] pod);
      [reflexivity | reflexivity | discriminate |].
    intros [Hignore _]. discriminate Hignore.
Defined.

Lemma first_denial_wins_witness :
  let out := server.admit_ (controller [imagelist; securitycontext; tolerations])
               (request "Pod" "prod" body) fresh in
  (∀ j, 1 < j → probe.invoked j out.2 = 0)
  ∧ last out.2 = Some (called 1 [privileged])
  ∧ out.1.1
    = (None,
       admission.setResponse (request "Pod" "prod" body)
         {| admission.Allowed := false;
            admission.Result :=
              Some (probe.forbidden
                      (strings.Join (map server.reason [privileged]) ",")) |}).
Proof.
  apply (first_denial_wins (controller [imagelist; securitycontext; tolerations])
           (request "Pod" "prod" body) fresh (called 1 [privileged]) securitycontext).
  - vm_compute. right. left.
  - reflexivity.
  - discriminate.
  - reflexivity.
Defined.

Lemma undecided_is_an_error_witness :
  (∃ st', server.admit_ (controller [images]) (request "DaemonSet" "prod" body) fresh
          = (Some "unsupported object type", request "DaemonSet" "prod" body, st', [])
          ∧ probe.errorCount st' = 1
          ∧ server.world st' = [])
  ∧ (∃ st', server.admit_ (controller [images]) (request "Pod" "prod" []) fresh
            = (Some "unexpected end of JSON input", request "Pod" "prod" [], st', [])
            ∧ probe.errorCount st' = 1
            ∧ server.world st' = []).
Proof.
  split.
  - apply (undecided_is_an_error (controller [images]) (request "DaemonSet" "prod" body)
             fresh "unsupported object type").
    left. split; [|reflexivity].
    apply (bool_decide_eq_false_1 _). vm_compute. reflexivity.
  - apply (undecided_is_an_error (controller [images]) (request "Pod" "prod" [])
             fresh "unexpected end of JSON input").
    right. exists metav1.Pod. split; reflexivity.
Defined.

Lemma response_of_verdict_witness :
  (** a denial: [tolerations] returns two violations *)
  (let out := server.admit_ (controller [images; tolerations; securitycontext])
                (request "Pod" "prod" body) fresh in
   out.1.1.1 = None
   ∧ out.2 = [called 0 []; called 1 [untrusted; privileged]]
   ∧ admission.Request out.1.1.2 = admission.Request (request "Pod" "prod" body)
   ∧ ∃ call provider,
       last [called 0 []; called 1 [untrusted; privileged]] = Some call
       ∧ [images; tolerations; securitycontext] !! server.position call = Some provider
       ∧ server.returned call ≠ []
       ∧ admission.Response out.1.1.2
         = Some {| admission.Allowed := false;
                   admission.Result :=
                     Some {| metav1.Status_ := "Failure";
                             metav1.Message :=
                               String.concat ","
                                 (map (λ x, field.Field x +:+ "=" +:+ fmt_v (field.BadValue x)
                                            +:+ " : " +:+ field.Detail x)
                                      (server.returned call));
                             metav1.Reason := "Forbidden";
                             metav1.Code := 403 |} |})
  (** an acceptance *)
  ∧ (let out := server.admit_ (controller [images; services])
                  (request "Pod" "prod" body) fresh in
     out.1.1.1 = None
     ∧ out.2 = [called 0 []]
     ∧ admission.Request out.1.1.2 = admission.Request (request "Pod" "prod" body)
     ∧ admission.Response out.1.1.2
       = Some {| admission.Allowed := true; admission.Result := None |}).
Proof.
  split.
  - apply (response_of_verdict (controller [images; tolerations; securitycontext])
             (request "Pod" "prod" body) fresh
             (probe.denial pod [untrusted; privileged])
             (server.handleAdmissionReview (controller [images; tolerations; securitycontext])
                (request "Pod" "prod" body) fresh).1.2
             [called 0 []; called 1 [untrusted; privileged]]).
    vm_compute. reflexivity.
  - apply (response_of_verdict (controller [images; services])
             (request "Pod" "prod" body) fresh
             {| server.Allowed := true; server.Object := pod;
                server.Status := metav1.emptyStatus |}
             (server.handleAdmissionReview (controller [images; services])
                (request "Pod" "prod" body) fresh).1.2
             [called 0 []]).
    vm_compute. reflexivity.
Defined.

Lemma filtered_out_is_never_invoked_witness :
  let out := server.admit_ (controller [services; images; securitycontext])
               (request "Pod" "kube-system" body) fresh in
  (** [services] listens to another kind, [images] ignores the namespace *)
  probe.invoked 0 out.2 = 0 ∧ probe.invoked 1 out.2 = 0.
Proof.
  split.
  - apply (filtered_out_is_never_invoked (controller [services; images; securitycontext])
             (request "Pod" "kube-system" body) fresh 0 services); [reflexivity|].
    left. discriminate.
  - apply (filtered_out_is_never_invoked (controller [services; images; securitycontext])
             (request "Pod" "kube-system" body) fresh 1 images); [reflexivity|].
    right. left.
Defined.



(** C8, the failing input: [images] is invoked once on the pod and returns
    no violation; the review is accepted and counted as accepted, the child
    of the per-authorizer counter for ("images", "accept") exists, and its
    value is still 0, the value it had before the review. *)
Theorem accept_counter_is_not_incremented :
  let out := server.admit_ (controller [images]) (request "Pod" "prod" body) fresh in
  let st' := out.1.2 in
  out.2 = [called 0 []]
  ∧ out.1.1.2 = admission.setResponse (request "Pod" "prod" body)
                  {| admission.Allowed := true; admission.Result := None |}
  ∧ probe.totalCount "accept" st' = 1
  ∧ server.admissionAuthorizerActionMetric (server.metrics st') !! ("images", "accept")
    = Some 0
  ∧ probe.actionCount "images" "accept" fresh = 0
  ∧ probe.actionCount "images" "accept" st' = 0.
Proof. repeat split; by vm_compute. Qed.

Lemma factory_and_parser_witness :
  authorize.newAuthorizer "podsecurity" "/etc/policy.yml" = Err "unsupported authorizer"
  ∧ authorize.New "podsecurity" "/etc/policy.yml" false = Err "unsupported authorizer"
  ∧ main.configureAuthorizer "images=a=b"
    = Err "invalid authorizer config, should be name:config_path"
  ∧ main.configureAuthorizer "images" = authorize.New "images" "" true.
Proof.
  apply (factory_and_parser "podsecurity" "/etc/policy.yml" "images=a=b" "images").
  - apply (bool_decide_eq_false_1 _). vm_compute. reflexivity.
  - vm_compute. lia.
  - reflexivity.
Defined.

End examples.

(** * Further properties of the dispatch engine *)
Section accounting.
Context `{Collaborators}.

Implicit Types (review : admission.AdmissionReview) (provider : api.Authorize).
Implicit Types (object : metav1.Object) (st : server.State).
Implicit Types (errs : field.ErrorList) (calls : list server.Invocation).
Implicit Types (all providers : list api.Authorize) (i j k : nat) (name action : string).

Local Abbreviation kindOf review := (admission.Kind (admission.Request review)).
Local Abbreviation namespaceOf review := (admission.Namespace (admission.Request review)).

(** *** Counters *)

Lemma value_Inc_other `{Countable L} (k k' : L) (vec : gmap L nat) :
  k ≠ k' → prometheus.value k (prometheus.Inc k' vec) = prometheus.value k vec.
Proof. intros Hne. unfold prometheus.value, prometheus.Inc. by rewrite lookup_insert_ne. Qed.

Lemma calls_of_app all name calls calls' :
  tally.calls_of all name (calls ++ calls')
  = tally.calls_of all name calls + tally.calls_of all name calls'.
Proof. unfold tally.calls_of. by rewrite filter_app, length_app. Qed.

Lemma denials_of_app all name calls calls' :
  tally.denials_of all name (calls ++ calls')
  = tally.denials_of all name calls + tally.denials_of all name calls'.
Proof. unfold tally.denials_of. by rewrite filter_app, length_app. Qed.

Lemma calls_of_one all name i provider object errs :
  all !! i = Some provider →
  tally.calls_of all name
    [ {| server.position := i; server.passed := object; server.returned := errs |} ]
  = if decide (api.Name provider = name) then 1 else 0.
Proof.
  intros Hi. unfold tally.calls_of, tally.named. rewrite filter_cons, filter_nil. simpl.
  rewrite Hi. simpl. destruct (decide (api.Name provider = name)) as [->|Hne].
  - by rewrite bool_decide_eq_true_2.
  - rewrite bool_decide_eq_false_2; [done|]. intros [=]. done.
Qed.

Lemma denials_of_one all name i provider object errs :
  all !! i = Some provider →
  tally.denials_of all name
    [ {| server.position := i; server.passed := object; server.returned := errs |} ]
  = if decide (api.Name provider = name)
    then (match errs with [] => 0 | _ :: _ => 1 end) else 0.
Proof.
  intros Hi. unfold tally.denials_of, tally.named, tally.denying.
  rewrite filter_cons, filter_nil. simpl.
  rewrite Hi. simpl. destruct (decide (api.Name provider = name)) as [->|Hne].
  - rewrite bool_decide_eq_true_2 by done. by destruct errs.
  - rewrite bool_decide_eq_false_2; [done|]. intros [=]. done.
Qed.

(** What the metrics are after one turn of the loop, for the provider
    registered at position [i] of [all]. *)
Lemma iteration_tally all review i provider object st :
  all !! i = Some provider →
  let out := server.iteration (kindOf review) review i provider object st in
  tally.accounted all st (tally.after out.1) out.2.
Proof.
  intros Hi out. subst out. unfold tally.accounted.
  destruct (probe.applies review provider) eqn:Happ.
  - destruct (api.Admit provider (server.world st)
                (metav1.SetNamespace (namespaceOf review) object))
      as [[errs w] object'] eqn:Hadmit.
    rewrite (iteration_called review i provider object st errs w object' Happ Hadmit).
    assert (∀ name, tally.latencyCount name (probe.timed provider w st)
                    = tally.latencyCount name st
                      + if decide (api.Name provider = name) then 1 else 0) as Hlat.
    { intros name. unfold tally.latencyCount, probe.timed. simpl.
      destruct (decide (api.Name provider = name)) as [->|Hne].
      - rewrite value_Inc. lia.
      - rewrite value_Inc_other by done. lia. }
    destruct errs as [|x errs].
    + simpl. split; [done|]. split; [done|]. split.
      * intros name action. rewrite (denials_of_one all name i provider _ [] Hi).
        unfold probe.actionCount. simpl. rewrite value_WithLabelValues.
        repeat case_decide; lia.
      * intros name. rewrite (calls_of_one all name i provider _ [] Hi).
        apply (Hlat name).
    + assert (server.metrics (probe.examined provider object' (x :: errs) w st)
              = server.metrics (server.incAction (api.Name provider) server.actionDenied
                                  (probe.timed provider w st))) as Hm.
      { unfold probe.examined. apply checkInternal_state. }
      assert (∀ flow : server.Flow,
                tally.after flow = probe.examined provider object' (x :: errs) w st →
                ∀ calls, tally.after (flow, calls).1
                         = probe.examined provider object' (x :: errs) w st) as Hafter
        by done.
      rewrite Hafter by by destruct (probe.skipme _ _).
      unfold snd.
      unfold probe.errorCount, probe.totalCount, probe.actionCount, tally.latencyCount.
      rewrite Hm. split; [done|]. split; [done|]. split.
      * intros name action.
        rewrite (denials_of_one all name i provider _ (x :: errs) Hi). simpl.
        unfold server.actionDenied.
        destruct (decide (action = "deny")) as [->|Hne].
        -- destruct (decide (api.Name provider = name)) as [->|Hne'].
           ++ rewrite value_Inc. lia.
           ++ rewrite value_Inc_other by congruence. lia.
        -- rewrite value_Inc_other by congruence. lia.
      * intros name. rewrite (calls_of_one all name i provider _ (x :: errs) Hi).
        apply (Hlat name).
  - destruct (iteration_filtered review i provider object st Happ) as (st' & -> & _ & Hm).
    unfold probe.errorCount, probe.totalCount, probe.actionCount, tally.latencyCount.
    simpl. rewrite Hm. unfold tally.denials_of, tally.calls_of. simpl.
    split; [done|]. split; [done|]. split.
    + intros name action. case_decide; lia.
    + intros name. lia.
Qed.

Lemma accounted_nil all st : tally.accounted all st st [].
Proof.
  unfold tally.accounted, tally.denials_of, tally.calls_of. simpl.
  split; [done|]. split; [done|]. split.
  - intros name action. case_decide; lia.
  - intros name. lia.
Qed.

Lemma accounted_app all st st1 st2 calls calls' :
  tally.accounted all st st1 calls →
  tally.accounted all st1 st2 calls' →
  tally.accounted all st st2 (calls ++ calls').
Proof.
  intros (He & Ht & Ha & Hl) (He' & Ht' & Ha' & Hl'). unfold tally.accounted.
  split; [congruence|]. split; [intros action; by rewrite Ht', Ht|]. split.
  - intros name action. rewrite Ha', Ha, denials_of_app. case_decide; lia.
  - intros name. rewrite Hl', Hl, calls_of_app. lia.
Qed.

(** The metrics after a run of the loop over a suffix [providers] of the
    registered authorizers [all], from its position [i]. *)
Lemma iterate_tally all review providers i object st :
  (∀ k, providers !! k = all !! (i + k)) →
  let out := server.iterate (kindOf review) review providers i object st in
  tally.accounted all st (tally.after out.1) out.2.
Proof.
  revert i object st.
  induction providers as [|provider rest IH]; intros i object st Hsuffix; simpl.
  { apply accounted_nil. }
  assert (all !! i = Some provider) as Hi.
  { specialize (Hsuffix 0). by rewrite Nat.add_0_r in Hsuffix. }
  pose proof (iteration_tally all review i provider object st Hi) as Hturn.
  destruct (server.iteration _ review i provider object st)
    as [[object' st1|res st1] calls]; simpl in *; [|done].
  assert (∀ k, rest !! k = all !! (S i + k)) as Hsuffix'.
  { intros k. specialize (Hsuffix (S k)). simpl in Hsuffix.
    by replace (i + S k) with (S i + k) in Hsuffix by lia. }
  specialize (IH (S i) object' st1 Hsuffix').
  destruct (server.iterate _ review rest (S i) object' st1) as [flow calls'].
  simpl in *. by eapply accounted_app.
Qed.

(** The calls of a run are made in the order of registration. *)
Lemma iterate_ordered review providers i object st :
  StronglySorted (λ a b, server.position a < server.position b)
    (server.iterate (kindOf review) review providers i object st).2.
Proof.
  revert i object st.
  induction providers as [|provider rest IH]; intros i object st; simpl; [constructor|].
  destruct (probe.applies review provider) eqn:Happ.
  - destruct (api.Admit provider (server.world st)
                (metav1.SetNamespace (namespaceOf review) object))
      as [[errs w] object'] eqn:Hadmit.
    rewrite (iteration_called review i provider object st errs w object' Happ Hadmit).
    assert (∀ st1, StronglySorted (λ a b, server.position a < server.position b)
              ({| server.position := i;
                  server.passed := metav1.SetNamespace (namespaceOf review) object;
                  server.returned := errs |}
               :: (server.iterate (kindOf review) review rest (S i) object' st1).2))
      as Hcons.
    { intros st1. constructor; [apply IH|].
      eapply Forall_impl; [apply iterate_positions|]. simpl. intros call [Hle _]. lia. }
    destruct errs as [|x errs]; [|destruct (probe.skipme provider (x :: errs))].
    + specialize (Hcons (server.touchAction (api.Name provider) server.actionAccepted
                           (probe.timed provider w st))).
      by destruct (server.iterate _ _ rest _ _ _).
    + specialize (Hcons (probe.examined provider object' (x :: errs) w st)).
      by destruct (server.iterate _ _ rest _ _ _).
    + repeat constructor.
  - destruct (iteration_filtered review i provider object st Happ) as (st' & -> & _ & _).
    specialize (IH (S i) object st'). by destruct (server.iterate _ _ rest _ _ _).
Qed.

Lemma handle_tally c review st :
  tally.accounted (server.providers c) st
    (server.handleAdmissionReview c review st).1.2
    (server.handleAdmissionReview c review st).2.
Proof.
  destruct (server.getResourceForReview (kindOf review) review) as [object|err] eqn:Hdec.
  - rewrite (handle_decoded _ _ _ _ Hdec).
    pose proof (iterate_tally (server.providers c) review (server.providers c) 0 object st
                  (λ k, eq_refl)) as Hrun.
    by destruct (server.iterate _ _ _ _ _ _) as [[object' st'|res st'] calls].
  - rewrite (handle_undecoded _ _ _ _ Hdec). apply accounted_nil.
Qed.

(** The metrics [admit] itself touches, on top of those of the loop. *)
Lemma admit_metrics c review st :
  let handled := server.handleAdmissionReview c review st in
  let out := server.admit_ c review st in
  server.admissionAuthorizerActionMetric (server.metrics out.1.2)
  = server.admissionAuthorizerActionMetric (server.metrics handled.1.2)
  ∧ server.admissionAuthorizerLatencyMetric (server.metrics out.1.2)
    = server.admissionAuthorizerLatencyMetric (server.metrics handled.1.2).
Proof.
  unfold server.admit_.
  destruct (server.handleAdmissionReview c review st) as [[[res|err] st1] calls]; simpl;
    [|done].
  destruct (server.Allowed res); simpl; [done|].
  by destruct (server.EnableEvents (server.config c)).
Qed.

(** X1: every review is counted once and in one place. *)
Theorem every_review_is_counted_once c review st :
  let out := server.admit_ c review st in
  let err := out.1.1.1 in
  let response := admission.Response out.1.1.2 in
  let st' := out.1.2 in
  let label := match err, response with
               | None, Some r => Some (if admission.Allowed r then "accept" else "deny")
               | _, _ => None
               end in
  probe.errorCount st' = probe.errorCount st + (if err is Some _ then 1 else 0)
  ∧ (∀ action, probe.totalCount action st'
               = probe.totalCount action st + if decide (label = Some action) then 1 else 0)
  ∧ (err = None ↔ is_Some label)
  ∧ (is_Some err → out.1.1.2 = review).
Proof.
  pose proof (handle_tally c review st) as (He & Ht & _). unfold server.admit_.
  destruct (server.handleAdmissionReview c review st) as [[[res|err] st1] calls];
    simpl in *.
  - destruct (server.Allowed res); simpl.
    + unfold probe.errorCount, probe.totalCount in *. simpl.
      split; [lia|]. split; [|split; [by split|by intros [? [=]]]].
      intros action. rewrite <- Ht. unfold server.actionAccepted.
      destruct (decide (Some "accept" = Some action)) as [[= <-]|Hne].
      * rewrite value_Inc. lia.
      * rewrite value_Inc_other by congruence. lia.
    + assert (∀ s, probe.errorCount
                (if server.EnableEvents (server.config c)
                 then server.with_world (createPodDeniedEvent (server.world st1)
                        (server.Object res) (metav1.Message (server.Status res))) s
                 else s) = probe.errorCount s
              ∧ ∀ action, probe.totalCount action
                (if server.EnableEvents (server.config c)
                 then server.with_world (createPodDeniedEvent (server.world st1)
                        (server.Object res) (metav1.Message (server.Status res))) s
                 else s) = probe.totalCount action s) as Hev
        by (intros s; by destruct (server.EnableEvents _)).
      split; [rewrite (proj1 (Hev _)); unfold probe.errorCount in *; simpl; lia|].
      split; [|split; [by split|by intros [? [=]]]].
      intros action. rewrite (proj2 (Hev _)).
      unfold probe.totalCount in *. simpl. rewrite <- Ht. unfold server.actionDenied.
      destruct (decide (Some "deny" = Some action)) as [[= <-]|Hne].
      * rewrite value_Inc. lia.
      * rewrite value_Inc_other by congruence. lia.
  - unfold probe.errorCount, probe.totalCount in *. simpl.
    split; [lia|]. split; [|split; [split; [done|by intros [? [=]]]|done]].
    intros action. rewrite <- Ht. lia.
Qed.

(** X2: the authorizers are invoked in the order of their registration. *)
Theorem invoked_in_registration_order c review st :
  StronglySorted (λ a b, server.position a < server.position b)
    (server.admit_ c review st).2.
Proof.
  rewrite admit_calls.
  destruct (server.getResourceForReview (kindOf review) review) as [object|err] eqn:Hdec.
  - rewrite (handle_decoded _ _ _ _ Hdec).
    pose proof (iterate_ordered review (server.providers c) 0 object st) as Hsorted.
    by destruct (server.iterate _ _ _ _ _ _) as [[object' st'|res st'] calls].
  - rewrite (handle_undecoded _ _ _ _ Hdec). constructor.
Qed.

(** X3: the per-authorizer action counters.  A review adds to the counter of
    (name, "deny") the number of calls to authorizers of that name that
    returned violations, skipped or not, and leaves every other child of the
    counter, those of "accept" among them, at its value. *)
Theorem action_counters_count_denials c review st name action :
  let out := server.admit_ c review st in
  probe.actionCount name action out.1.2
  = probe.actionCount name action st
    + if decide (action = "deny")
      then tally.denials_of (server.providers c) name out.2 else 0.
Proof.
  intros out. subst out.
  pose proof (handle_tally c review st) as (_ & _ & Ha & _).
  pose proof (admit_metrics c review st) as [Hm _]. simpl in Hm.
  rewrite admit_calls. unfold probe.actionCount in *. rewrite Hm. apply Ha.
Qed.

(** X4: the latency histogram of an authorizer gets one observation for
    every call to an authorizer of that name, whatever the call returned. *)
Theorem one_latency_observation_per_call c review st name :
  let out := server.admit_ c review st in
  tally.latencyCount name out.1.2
  = tally.latencyCount name st + tally.calls_of (server.providers c) name out.2.
Proof.
  intros out. subst out.
  pose proof (handle_tally c review st) as (_ & _ & _ & Hl).
  pose proof (admit_metrics c review st) as [_ Hm]. simpl in Hm.
  rewrite admit_calls. unfold tally.latencyCount in *. rewrite Hm. apply Hl.
Qed.

(** X5: a review is allowed exactly when every call made for it returned no
    violation or had its violations skipped. *)
Theorem allowed_iff_every_call_is_tolerated c review st review' :
  (server.admit_ c review st).1.1 = (None, review') →
  ∃ r, admission.Response review' = Some r
       ∧ (admission.Allowed r = true
          ↔ ∀ call provider,
              call ∈ (server.admit_ c review st).2 →
              server.providers c !! server.position call = Some provider →
              server.returned call = []
              ∨ (api.IgnoreOnFailure (api.FilterOn provider) = true
                 ∧ ∃ x, x ∈ server.returned call
                        ∧ field.Type_ x = field.ErrorTypeInternal)).
Proof.
  rewrite admit_calls. pose proof (handle_run c review st) as Hrun. unfold server.admit_.
  destruct (server.handleAdmissionReview c review st) as [[[res|err] st1] calls];
    simpl in *; [|by intros [=]].
  destruct Hrun as (flow & Hrun & Hres).
  destruct (server.Allowed res) eqn:Hallowed; simpl; intros [= <-]; simpl;
    eexists; (split; [done|]); simpl.
  - split; [|done]. intros _ call provider Hin Hprov.
    destruct flow as [object' st2|res' st2]; simpl in *.
    + destruct Hrun as [Htol _]. rewrite Forall_forall in Htol.
      destruct (Htol call Hin) as (p & Hp & _ & Hret).
      rewrite Nat.sub_0_r, Hprov in Hp. injection Hp as <-.
      destruct Hret as [?|Hskip]; [by left|right]. by apply skipme_true.
    + subst res'. destruct Hrun as (d & p & init & lc & _ & _ & _ & _ & _ & _ & [o Hden] & _).
      by rewrite Hden in Hallowed.
  - split; [done|]. intros Hall. exfalso.
    destruct flow as [object' st2|res' st2]; simpl in *; [congruence|].
    destruct Hrun as (d & p & init & lc & Hp & _ & -> & Hpos & Hret & Hskip & _).
    destruct (Hall lc p) as [?|Hskipped]; [set_solver|by rewrite Hpos|done|].
    apply skipme_true in Hskipped. congruence.
Qed.

Lemma iterate_all_filtered review providers i object st :
  (∀ provider, provider ∈ providers → probe.applies review provider = false) →
  ∃ st', server.iterate (kindOf review) review providers i object st
         = (server.Continue object st', [])
         ∧ server.world st' = server.world st
         ∧ server.metrics st' = server.metrics st.
Proof.
  revert i st. induction providers as [|provider rest IH]; intros i st Hall; simpl.
  { by exists st. }
  destruct (iteration_filtered review i provider object st) as (st1 & -> & Hw & Hm).
  { apply Hall. left. }
  destruct (IH (S i) st1) as (st2 & -> & Hw' & Hm').
  { intros p Hp. apply Hall. by right. }
  exists st2. split; [done|]. split; congruence.
Qed.

(** X6: a review of a supported kind that no registered authorizer listens
    to, because of its kind or of its namespace, is allowed without any call;
    the world is left as it was and no per-authorizer metric moves. *)
Theorem allowed_when_nothing_applies c review st type object :
  server.objectFor (kindOf review) = Some type →
  json_Unmarshal (admission.Raw (admission.Request review)) type = Ok object →
  (∀ provider, provider ∈ server.providers c →
     api.Kind (api.FilterOn provider) ≠ kindOf review
     ∨ namespaceOf review ∈ api.IgnoreNamespaces (api.FilterOn provider)) →
  ∃ st', server.admit_ c review st
         = (None,
            admission.setResponse review
              {| admission.Allowed := true; admission.Result := None |},
            st', [])
         ∧ server.world st' = server.world st
         ∧ server.admissionAuthorizerActionMetric (server.metrics st')
           = server.admissionAuthorizerActionMetric (server.metrics st)
         ∧ server.admissionAuthorizerLatencyMetric (server.metrics st')
           = server.admissionAuthorizerLatencyMetric (server.metrics st).
Proof.
  intros Htype Hjson Hnone.
  assert (server.getResourceForReview (kindOf review) review = Ok object) as Hdec.
  { unfold server.getResourceForReview. by rewrite Htype, Hjson. }
  destruct (iterate_all_filtered review (server.providers c) 0 object st)
    as (st1 & Hrun & Hw & Hm).
  { intros p Hp. destruct (probe.applies review p) eqn:Happ; [|done].
    apply applies_true in Happ as [Hk Hn]. by destruct (Hnone p Hp). }
  unfold server.admit_. rewrite (handle_decoded _ _ _ _ Hdec), Hrun. simpl.
  eexists. split; [done|]. simpl. by rewrite Hw, Hm.
Qed.

Lemma checkInternal_logs provider object errs b st :
  server.logs (fold_left (server.checkInternal provider object) errs (b, st)).2
  = server.logs st
    ++ if api.IgnoreOnFailure (api.FilterOn provider)
       then tally.skipped_entry object
            <$> filter (λ x, field.Type_ x = field.ErrorTypeInternal) errs
       else [].
Proof.
  revert b st. induction errs as [|x errs IH]; intros b st.
  { simpl. destruct (api.IgnoreOnFailure _); by rewrite app_nil_r. }
  unfold field.ErrorList in *.
  rewrite filter_cons. cbn [fold_left]. unfold server.checkInternal at 2.
  destruct (decide (field.Type_ x = field.ErrorTypeInternal)) as [Hx|Hx].
  - destruct (api.IgnoreOnFailure (api.FilterOn provider)) eqn:Hf.
    + rewrite IH, ?Hf. simpl. by rewrite <- app_assoc.
    + by rewrite IH, ?Hf.
  - by rewrite IH.
Qed.

(** X7: when the violations of an authorizer that ignores failures are
    examined, one warning is logged for each Internal violation, in their
    order and with its detail, and nothing for the others; an authorizer
    that does not ignore failures has nothing logged at that point. *)
Theorem internal_errors_are_logged review i provider object st errs w object' :
  probe.applies review provider = true →
  api.Admit provider (server.world st) (metav1.SetNamespace (namespaceOf review) object)
  = (errs, w, object') →
  errs ≠ [] →
  let st' := tally.after (server.iteration (kindOf review) review i provider object st).1 in
  server.world st' = w
  ∧ server.logs st'
    = server.logs st
      ++ if api.IgnoreOnFailure (api.FilterOn provider)
         then tally.skipped_entry object'
              <$> filter (λ x, field.Type_ x = field.ErrorTypeInternal) errs
         else [].
Proof.
  intros Happ Hadmit Hne st'. subst st'.
  rewrite (iteration_called review i provider object st errs w object' Happ Hadmit).
  destruct errs as [|x errs]; [done|].
  assert (tally.after (if probe.skipme provider (x :: errs)
            then server.Continue object' (probe.examined provider object' (x :: errs) w st)
            else server.Return (probe.denial object' (x :: errs))
                   (probe.examined provider object' (x :: errs) w st), 
            [ {| server.position := i;
                 server.passed := metav1.SetNamespace (namespaceOf review) object;
                 server.returned := x :: errs |} ]).1
          = probe.examined provider object' (x :: errs) w st) as ->
    by by destruct (probe.skipme _ _).
  unfold probe.examined. split.
  - by rewrite (proj1 (checkInternal_state provider object' (x :: errs) false _)).
  - by rewrite checkInternal_logs.
Qed.

End accounting.

(** * Further properties of the constructor, the factory and the command line *)
Section startup.
Context `{Collaborators} `{!command.Platform}.

(** X8: with at least one authorizer and a server that can be created,
    [New] returns a controller that keeps the configuration and the
    authorizers in their order; its router recovers from panics first,
    serves POST / and GET /health, logs requests exactly when EnableLogging
    is set and serves GET /metrics exactly when EnableMetrics is set; one
    line is logged for the listener and one for each authorizer. *)
Theorem New_builds_the_router (cfg : server.Config) (providers : list api.Authorize)
    (lg : list log.Entry) (srv : HTTPServer) :
  providers ≠ [] →
  NewHTTPServer (server.Listen cfg) (server.TLSCert cfg) (server.TLSKey cfg) = Ok srv →
  ∃ ctl lg',
    server.New cfg providers lg = (Ok ctl, lg')
    ∧ server.config ctl = cfg
    ∧ server.providers ctl = providers
    ∧ server.server_ ctl = Some srv
    ∧ head (server.middlewares (server.engine ctl)) = Some server.Recover
    ∧ (server.admissionMiddlerware ∈ server.middlewares (server.engine ctl)
       ↔ server.EnableLogging cfg = true)
    ∧ ("POST", "/", server.admitHandler) ∈ server.routes (server.engine ctl)
    ∧ ("GET", "/health", server.healthHandler) ∈ server.routes (server.engine ctl)
    ∧ ((∃ handler, ("GET", "/metrics", handler) ∈ server.routes (server.engine ctl))
       ↔ server.EnableMetrics cfg = true)
    ∧ length lg' = length lg + S (length providers).
Proof.
  intros Hne Hsrv. destruct providers as [|provider rest]; [done|].
  unfold server.New. simpl. rewrite Hsrv. eexists _, _. split; [done|]. simpl.
  split; [done|]. split; [done|]. split; [done|]. split; [done|].
  split; [|split; [left|split; [right; left|split]]].
  - destruct (server.EnableLogging cfg); simpl.
    + split; [done|]. intros _. right. left.
    + split; [|done]. by intros [=]%list_elem_of_singleton.
  - destruct (server.EnableMetrics cfg); simpl.
    + split; [done|]. intros _. exists server.metricsHandler. do 2 right. left.
    + split; [|done]. intros [handler Hin].
      apply elem_of_cons in Hin as [[=]|Hin].
      by apply list_elem_of_singleton in Hin as [=].
  - rewrite !length_app. simpl. rewrite length_map. lia.
Qed.

(** *** The option [--authorizer] *)

Lemma Split_append (a b : string) (sep : ascii) :
  strings.Count a sep = 0 →
  strings.Split (a +:+ String sep b) sep = a :: strings.Split b sep.
Proof.
  induction a as [|ch a IH]; simpl.
  - intros _. by rewrite Ascii.eqb_refl.
  - destruct (Ascii.eqb ch sep); simpl; [done|]. intros Hcount. by rewrite (IH Hcount).
Qed.

Lemma Split_once (s : string) (sep : ascii) :
  strings.Count s sep = 1 →
  ∃ a b, s = a +:+ String sep b ∧ strings.Count a sep = 0 ∧ strings.Count b sep = 0.
Proof.
  induction s as [|ch s IH]; simpl; [done|].
  destruct (Ascii.eqb_spec ch sep) as [->|Hne]; simpl.
  - intros [= Hcount]. by exists "", s.
  - intros Hcount. destruct (IH Hcount) as (a & b & -> & Ha & Hb).
    exists (String ch a), b. simpl. split; [done|]. split; [|done].
    destruct (Ascii.eqb_spec ch sep); [done|]. done.
Qed.

Lemma configureAuthorizer_pair (name path : string) :
  strings.Count name "=" = 0 →
  strings.Count path "=" = 0 →
  main.configureAuthorizer (name +:+ "=" +:+ path) = authorize.New name path true.
Proof.
  intros Hname Hpath. unfold main.configureAuthorizer.
  change (name +:+ "=" +:+ path) with (name +:+ String "=" path).
  by rewrite (Split_append name path "=" Hname), (Split_without_separator path "=" Hpath).
Qed.

Lemma configureAuthorizer_many (cfg : string) :
  2 ≤ strings.Count cfg "=" →
  main.configureAuthorizer cfg = Err "invalid authorizer config, should be name:config_path".
Proof.
  intros Hmany. unfold main.configureAuthorizer.
  pose proof (Split_length cfg "=") as Hlen.
  destruct (Nat.ltb_spec 2 (length (strings.Split cfg "="))); [done|lia].
Qed.

(** X9: the format name=config_path.  For a name and a path without '=',
    the option name=path asks the factory for the reloadable authorizer of
    that name with that path; the path may be empty, so that "name=" and the
    bare "name" are the same request. *)
Theorem configure_name_and_path (name path : string) :
  strings.Count name "=" = 0 →
  strings.Count path "=" = 0 →
  main.configureAuthorizer (name +:+ "=" +:+ path) = newWrapper name path
  ∧ main.configureAuthorizer (name +:+ "=") = main.configureAuthorizer name.
Proof.
  intros Hname Hpath. split.
  - by rewrite configureAuthorizer_pair.
  - change (name +:+ "=") with (name +:+ "=" +:+ "").
    rewrite configureAuthorizer_pair by done.
    unfold main.configureAuthorizer. by rewrite (Split_without_separator name "=" Hname).
Qed.

(** X10: whatever the option holds, [configureAuthorizer] either rejects it,
    which happens exactly when it holds two or more '=', or splits it into a
    name and a path without '=' (the path empty when there is no '=') and
    returns what the reloadable wrapper returns for them: it never builds an
    authorizer that is not reloadable. *)
Theorem configured_authorizers_are_reloadable (cfg : string) :
  (2 ≤ strings.Count cfg "="
   ∧ main.configureAuthorizer cfg
     = Err "invalid authorizer config, should be name:config_path")
  ∨ (strings.Count cfg "=" ≤ 1
     ∧ ∃ name path,
         strings.Count name "=" = 0
         ∧ strings.Count path "=" = 0
         ∧ (cfg = name ∧ path = "" ∨ cfg = name +:+ "=" +:+ path)
         ∧ main.configureAuthorizer cfg = newWrapper name path).
Proof.
  destruct (strings.Count cfg "=") as [|[|n]] eqn:Hcount.
  - right. split; [lia|]. exists cfg, "". split; [done|]. split; [done|].
    split; [by left|]. unfold main.configureAuthorizer.
    by rewrite (Split_without_separator cfg "=" Hcount).
  - right. split; [lia|]. destruct (Split_once cfg "=" Hcount) as (name & path & -> & Hn & Hp).
    exists name, path. split; [done|]. split; [done|]. split; [by right|].
    by apply configureAuthorizer_pair.
  - left. split; [lia|]. apply configureAuthorizer_many. lia.
Qed.

(** X11: for each of the eight module names the factory calls the
    constructor of the module of that very name, with the path as given;
    asked for a reloadable authorizer it leaves everything to the wrapper. *)
Theorem factory_dispatches_by_name (name path : string) :
  name ∈ ["domains"; "images"; "imagelist"; "kubecertmanager";
          "namespaces"; "securitycontext"; "services"; "tolerations"] →
  authorize.newAuthorizer name path = NewFromFile name path
  ∧ authorize.New name path false = NewFromFile name path
  ∧ authorize.New name path true = newWrapper name path.
Proof.
  intros Hin.
  repeat (apply elem_of_cons in Hin as [->|Hin]; [done|]).
  by apply not_elem_of_nil in Hin.
Qed.

(** *** Starting the service *)

(** X12: [Start] fails only when the controller has no client and none can
    be created, and then leaves the controller as it was, not serving;
    otherwise it starts the server on the same controller, keeping a client
    that was already set and storing the one it created. *)
Theorem Start_needs_a_client (c : command.Controller) :
  match command.Start c with
  | (Some err, c') =>
      command.client c = None
      ∧ command.getKubernetesClient (command.admission_ c) = Err err
      ∧ c' = c
  | (None, c') =>
      command.admission_ c' = command.admission_ c
      ∧ command.serving c' = true
      ∧ match command.client c with
        | Some cl => command.client c' = Some cl
        | None => ∃ cl, command.client c' = Some cl
                        ∧ command.getKubernetesClient (command.admission_ c) = Ok cl
        end
  end.
Proof.
  unfold command.Start. destruct (command.client c) as [cl|]; [done|].
  destruct (command.getKubernetesClient (command.admission_ c)) as [cl|err] eqn:Hcl; [|done].
  simpl. split; [done|]. split; [done|]. by exists cl.
Qed.

Lemma enable_appends (configs : list string) (authorizers enabled : list api.Authorize) :
  command.enable configs authorizers = Ok enabled →
  ∃ new, enabled = authorizers ++ new
         ∧ Forall2 (λ config authorizer, main.configureAuthorizer config = Ok authorizer)
             configs new.
Proof.
  revert authorizers. induction configs as [|config rest IH]; intros authorizers; simpl.
  - intros [= <-]. exists []. by rewrite app_nil_r.
  - destruct (main.configureAuthorizer config) as [authorizer|err] eqn:Hconfig; [|done].
    intros Henable. destruct (IH _ Henable) as (new & -> & Hnew).
    exists (authorizer :: new). split; [by rewrite <- app_assoc|]. by constructor.
Qed.

Lemma enable_stops (configs : list string) (authorizers : list api.Authorize) (cfg : string) :
  cfg ∈ configs → 2 ≤ strings.Count cfg "=" →
  ∃ err, command.enable configs authorizers = Err err.
Proof.
  revert authorizers. induction configs as [|config rest IH]; intros authorizers Hin Hmany.
  { by apply not_elem_of_nil in Hin. }
  simpl. destruct (main.configureAuthorizer config) as [authorizer|err] eqn:Hconfig; [|eauto].
  apply elem_of_cons in Hin as [->|Hin]; [|by apply IH].
  rewrite (configureAuthorizer_many config Hmany) in Hconfig. done.
Qed.

(** X13: started without any [--authorizer] option, the application exits
    with code 1 on the error "no authorizers defined" of [server.New],
    whatever the other options are, before anything is logged or started. *)
Theorem Action_without_authorizers (cx : command.Context) (lg : list log.Entry) :
  command.authorizer cx = [] →
  command.Action cx lg
  = (command.Exit 1 ("[error] unable to initialize controller, %q" +:+ command.LF)
       "no authorizers defined", lg).
Proof. intros Hnone. unfold command.Action. by rewrite Hnone. Qed.

(** X14: one [--authorizer] option with two or more '=' among the options
    is enough for the application to exit with code 1 while enabling the
    authorizers: no controller is created and nothing is logged. *)
Theorem Action_with_a_malformed_authorizer (cx : command.Context) (lg : list log.Entry)
    (cfg : string) :
  cfg ∈ command.authorizer cx →
  2 ≤ strings.Count cfg "=" →
  ∃ err, command.Action cx lg
         = (command.Exit 1 "[error] unable to enable authorizer: %s" err, lg).
Proof.
  intros Hin Hmany. unfold command.Action.
  destruct (enable_stops (command.authorizer cx) [] cfg Hin Hmany) as [err ->]. eauto.
Qed.

(** X15: when the application gets as far as waiting for a signal, the
    controller it started has one authorizer for each [--authorizer] option,
    in the order of the options, each the one [configureAuthorizer] returns
    for its option; its configuration holds the values of the options with
    EnableMetrics false, so that no route /metrics is served; it has a
    client and its server was started. *)
Theorem Action_started (cx : command.Context) (lg lg' : list log.Entry)
    (c : command.Controller) :
  command.Action cx lg = (command.Wait c, lg') →
  Forall2 (λ config authorizer, main.configureAuthorizer config = Ok authorizer)
    (command.authorizer cx) (server.providers (command.admission_ c))
  ∧ command.authorizer cx ≠ []
  ∧ server.config (command.admission_ c) = command.configOf cx
  ∧ server.EnableMetrics (server.config (command.admission_ c)) = false
  ∧ (∀ handler, ("GET", "/metrics", handler)
                ∉ server.routes (server.engine (command.admission_ c)))
  ∧ is_Some (command.client c)
  ∧ command.serving c = true.
Proof.
  unfold command.Action.
  destruct (command.enable (command.authorizer cx) []) as [authorizers|err] eqn:Henable;
    [|done].
  destruct (enable_appends _ _ _ Henable) as (new & -> & Hnew). simpl in *.
  destruct new as [|authorizer new].
  { unfold server.New. simpl. done. }
  destruct (NewHTTPServer (command.listen cx) (command.tls_cert cx) (command.tls_key cx))
    as [srv|err] eqn:Hsrv.
  - destruct (New_builds_the_router (command.configOf cx) (authorizer :: new) lg srv)
      as (ctl & lg1 & Hnew' & Hcfg & Hprov & _ & _ & _ & _ & _ & Hmetrics & _); [done..|].
    rewrite Hnew'.
    pose proof (Start_needs_a_client
      {| command.admission_ := ctl; command.client := None; command.serving := false |})
      as Hstart.
    destruct (command.Start _) as [[err|] c']; [done|]. simpl in Hstart.
    destruct Hstart as (Hadm & Hserving & Hclient). intros [= -> <-].
    rewrite Hadm, Hprov, Hcfg. split; [done|]. split.
    { intros Hnil. rewrite Hnil in Hnew. inversion Hnew. }
    split; [done|]. split; [done|]. split.
    { intros handler Hin. simpl in Hmetrics.
      assert (false = true) as [=]. apply Hmetrics. by exists handler. }
    split; [|done]. by destruct Hclient as (cl & -> & _).
  - unfold server.New. simpl. by rewrite Hsrv.
Qed.

End startup.

(** * The added properties at work on the small cluster *)
Section more_examples.
#[local] Existing Instance cluster.types.
#[local] Existing Instance cluster.collaborators.
#[local] Existing Instance shell.platform.
Import cluster.

Local Abbreviation pod := (metav1.SetNamespace "prod" (decoded metav1.Pod)).

(** S4 of the specification: the skipped denial is counted for the
    authorizer and the review as accepted. *)
Example skipped_denial_counts :
  let out := server.admit_ (controller [imagelist; images]) (request "Pod" "prod" body) fresh in
  probe.actionCount "imagelist" "deny" out.1.2 = 1
  ∧ probe.totalCount "accept" out.1.2 = 1
  ∧ probe.totalCount "deny" out.1.2 = 0
  ∧ tally.latencyCount "imagelist" out.1.2 = 1
  ∧ tally.latencyCount "images" out.1.2 = 1.
Proof. repeat split; by vm_compute. Qed.

Lemma allowed_iff_every_call_is_tolerated_witness :
  ∃ r, admission.Response
         (admission.setResponse (request "Pod" "prod" body)
            {| admission.Allowed := false;
               admission.Result :=
                 Some (probe.forbidden
                         (strings.Join (map server.reason [privileged]) ",")) |})
       = Some r
       ∧ (admission.Allowed r = true
          ↔ ∀ call provider,
              call ∈ (server.admit_ (controller [images; securitycontext])
                        (request "Pod" "prod" body) fresh).2 →
              server.providers (controller [images; securitycontext])
                !! server.position call = Some provider →
              server.returned call = []
              ∨ (api.IgnoreOnFailure (api.FilterOn provider) = true
                 ∧ ∃ x, x ∈ server.returned call
                        ∧ field.Type_ x = field.ErrorTypeInternal)).
Proof.
  apply (allowed_iff_every_call_is_tolerated (controller [images; securitycontext])
           (request "Pod" "prod" body) fresh).
  vm_compute. reflexivity.
Defined.

Lemma allowed_when_nothing_applies_witness :
  ∃ st', server.admit_ (controller [services; images]) (request "Pod" "kube-system" body) fresh
         = (None,
            admission.setResponse (request "Pod" "kube-system" body)
              {| admission.Allowed := true; admission.Result := None |},
            st', [])
         ∧ server.world st' = []
         ∧ server.admissionAuthorizerActionMetric (server.metrics st') = ∅
         ∧ server.admissionAuthorizerLatencyMetric (server.metrics st') = ∅.
Proof.
  apply (allowed_when_nothing_applies (controller [services; images])
           (request "Pod" "kube-system" body) fresh metav1.Pod (decoded metav1.Pod));
    [reflexivity | reflexivity |].
  intros provider Hin.
  apply elem_of_cons in Hin as [->|Hin]; [left; discriminate|].
  apply list_elem_of_singleton in Hin as ->. right. left.
Defined.

Lemma internal_errors_are_logged_witness :
  let st' := tally.after
               (server.iteration "Pod" (request "Pod" "prod" body) 0 imagelist
                  (decoded metav1.Pod) fresh).1 in
  server.world st' = []
  ∧ server.logs st' = [] ++ [tally.skipped_entry pod timeout].
Proof.
  apply (internal_errors_are_logged (request "Pod" "prod" body) 0 imagelist
           (decoded metav1.Pod) fresh [timeout; untrusted] [] pod);
    [reflexivity | reflexivity | discriminate].
Defined.

Lemma New_builds_the_router_witness :
  ∃ ctl lg',
    server.New cfg [images; securitycontext] [] = (Ok ctl, lg')
    ∧ server.config ctl = cfg
    ∧ server.providers ctl = [images; securitycontext]
    ∧ server.server_ ctl = Some ":8443"
    ∧ head (server.middlewares (server.engine ctl)) = Some server.Recover
    ∧ (server.admissionMiddlerware ∈ server.middlewares (server.engine ctl)
       ↔ server.EnableLogging cfg = true)
    ∧ ("POST", "/", server.admitHandler) ∈ server.routes (server.engine ctl)
    ∧ ("GET", "/health", server.healthHandler) ∈ server.routes (server.engine ctl)
    ∧ ((∃ handler, ("GET", "/metrics", handler) ∈ server.routes (server.engine ctl))
       ↔ server.EnableMetrics cfg = true)
    ∧ length lg' = length (@nil log.Entry) + 3.
Proof.
  apply (New_builds_the_router cfg [images; securitycontext] [] ":8443");
    [discriminate | reflexivity].
Defined.

Lemma configure_name_and_path_witness :
  main.configureAuthorizer ("images" +:+ "=" +:+ "/etc/images.yml")
  = newWrapper "images" "/etc/images.yml"
  ∧ main.configureAuthorizer ("images" +:+ "=") = main.configureAuthorizer "images".
Proof.
  apply (configure_name_and_path "images" "/etc/images.yml"); reflexivity.
Defined.

Lemma factory_dispatches_by_name_witness :
  authorize.newAuthorizer "services" "/etc/services.yml"
  = NewFromFile "services" "/etc/services.yml"
  ∧ authorize.New "services" "/etc/services.yml" false
    = NewFromFile "services" "/etc/services.yml"
  ∧ authorize.New "services" "/etc/services.yml" true
    = newWrapper "services" "/etc/services.yml".
Proof.
  apply (factory_dispatches_by_name "services" "/etc/services.yml").
  do 6 right. left.
Defined.

Lemma Action_without_authorizers_witness :
  command.Action (shell.options []) []
  = (command.Exit 1 ("[error] unable to initialize controller, %q" +:+ command.LF)
       "no authorizers defined", []).
Proof. apply (Action_without_authorizers (shell.options []) []). reflexivity. Defined.

Lemma Action_with_a_malformed_authorizer_witness :
  ∃ err, command.Action (shell.options ["images"; "images=a=b"; "services"]) []
         = (command.Exit 1 "[error] unable to enable authorizer: %s" err, []).
Proof.
  apply (Action_with_a_malformed_authorizer
           (shell.options ["images"; "images=a=b"; "services"]) [] "images=a=b").
  - right. left.
  - vm_compute. lia.
Defined.

Lemma Action_started_witness :
  ∃ c lg',
    command.Action (shell.options ["images"; "services=/etc/services.yml"]) []
    = (command.Wait c, lg')
    ∧ Forall2 (λ config authorizer, main.configureAuthorizer config = Ok authorizer)
        ["images"; "services=/etc/services.yml"]
        (server.providers (command.admission_ c))
    ∧ server.EnableMetrics (server.config (command.admission_ c)) = false
    ∧ (∀ handler, ("GET", "/metrics", handler)
                  ∉ server.routes (server.engine (command.admission_ c)))
    ∧ is_Some (command.client c)
    ∧ command.serving c = true.
Proof.
  eexists _, _. split; [vm_compute; reflexivity|].
  edestruct (Action_started (shell.options ["images"; "services=/etc/services.yml"]) [])
    as (Hproviders & _ & _ & Hmetrics & Hroute & Hclient & Hserving);
    [vm_compute; reflexivity|].
  split; [exact Hproviders|]. split; [exact Hmetrics|]. split; [exact Hroute|].
  split; [exact Hclient | exact Hserving].
Defined.

End more_examples.
